(** * Matrices_5_6: locating and rotating a 2-D block inside an N-D array

    A shallow embedding of the notebook [Week 1/Matrices_5_6.ipynb]:
    [find_submatrix], [rotate_sqcw], [rotate_sqcc], [rotate_180] and
    [rot_submatrix], together with the part of NumPy they rely on.

    NumPy arrays are handles onto shared data buffers: slicing, [np.flipud],
    [np.fliplr], [np.flip] and [transpose] return views of the same buffer,
    and [big_mat[...] = v] writes through a view.  The embedding keeps that
    structure: a [store] maps buffer identifiers to flat element lists and
    an [ndarray] is a (buffer, offset, per-axis extent and stride) handle.
    Elements are integers of one dtype, as in the notebook's arrays, which
    are all built by [np.array] from Python ints: [==] then compares them
    exactly and an assignment stores them unchanged.  Arrays of different
    dtypes, which NumPy compares after promoting them (through float64 for
    some pairs) and casts on assignment, are outside the embedding. *)

From Stdlib Require Import ZArith Lia.
From stdpp Require Import base numbers option list gmap.

Local Open Scope Z_scope.

(** ** Python exceptions and results *)

Inductive pyerr : Type :=
  | IndexError
  | ValueError.

Inductive res (A : Type) : Type :=
  | Ok (a : A)
  | Raise (e : pyerr).
Arguments Ok {A} a.
Arguments Raise {A} e.

(** Exceptions propagate: [x ← r; k] runs [k] only when [r] returned. *)
#[global] Instance res_ret : MRet res := λ A a, Ok a.
#[global] Instance res_bind : MBind res := λ A B k r,
  match r with
  | Ok a => k a
  | Raise e => Raise e
  end.

(** ** Arrays as views onto a store of buffers *)

(** One axis of a view: its extent and its stride, counted in elements.
    NumPy keeps [shape] and [strides] as two tuples of equal length; pairing
    them per axis makes that length invariant structural. *)
Definition axis : Type := nat * Z.

Record ndarray : Type := NdArray {
  nd_base : nat;          (* identifier of the data buffer *)
  nd_offset : Z;          (* position of element [0,...,0] in the buffer *)
  nd_axes : list axis     (* extent and stride of every axis *)
}.

Definition shape (a : ndarray) : list nat := (nd_axes a).*1.
Definition strides (a : ndarray) : list Z := (nd_axes a).*2.
Definition ndim (a : ndarray) : nat := length (nd_axes a).

(** Position in the buffer of the element with index [idx]. *)
Fixpoint addr_from (off : Z) (sts : list Z) (idx : list nat) : Z :=
  match sts, idx with
  | s :: sts', i :: idx' => addr_from (off + Z.of_nat i * s) sts' idx'
  | _, _ => off
  end.

Definition addr (a : ndarray) (idx : list nat) : Z :=
  addr_from (nd_offset a) (strides a) idx.

(** Element access in a buffer.  The views NumPy builds only address
    positions inside their buffer; elsewhere a read gives 0 and a write is
    dropped. *)
Definition buf_get (buf : list Z) (p : Z) : Z :=
  if p <? 0 then 0 else default 0 (buf !! Z.to_nat p).

Definition buf_set (buf : list Z) (p : Z) (x : Z) : list Z :=
  if p <? 0 then buf else <[Z.to_nat p := x]> buf.

Definition buffer_of (σ : gmap nat (list Z)) (a : ndarray) : list Z :=
  default [] (σ !! nd_base a).

Definition read (σ : gmap nat (list Z)) (a : ndarray) (idx : list nat) : Z :=
  buf_get (buffer_of σ a) (addr a idx).

(** All indices of a shape in C (row-major) order, the order in which NumPy
    traverses an array. *)
Fixpoint indices (sh : list nat) : list (list nat) :=
  match sh with
  | [] => [[]]
  | n :: sh' => i ← seq 0 n; (λ r, i :: r) <$> indices sh'
  end.

(** The elements of an array in C order ([a.ravel()]). *)
Definition ravel (σ : gmap nat (list Z)) (a : ndarray) : list Z :=
  read σ a <$> indices (shape a).

(** C-contiguous strides of a shape, and [np.array] on a fresh buffer. *)
Fixpoint c_axes (sh : list nat) : list axis * Z :=
  match sh with
  | [] => ([], 1)
  | n :: sh' => let '(axs, sz) := c_axes sh' in ((n, sz) :: axs, Z.of_nat n * sz)
  end.

Definition np_array (b : nat) (sh : list nat) : ndarray :=
  NdArray b 0 (c_axes sh).1.

(** ** Basic slicing *)

(** A Python [slice(start, stop)] with non-negative bounds. *)
Definition slice : Type := nat * nat.

(** One [start:stop] slice on one axis: bounds are clipped to the extent; an
    empty selection points at the start of the axis. *)
Definition slice_axis (ax : axis) (sl : slice) : Z * axis :=
  let '(n, s) := ax in
  let start := Nat.min sl.1 n in
  let stop := Nat.min sl.2 n in
  let len := (stop - start)%nat in
  if decide (len = 0%nat) then (0, (0%nat, s))
  else (Z.of_nat start * s, (len, s)).

Fixpoint slice_axes (axs : list axis) (sls : list slice) : Z * list axis :=
  match axs, sls with
  | ax :: axs', sl :: sls' =>
      let '(d, ax') := slice_axis ax sl in
      let '(d', axs'') := slice_axes axs' sls' in
      (d + d', ax' :: axs'')
  | _, _ => (0, axs)
  end.

(** [a[tuple(sls)]]: a view of the same buffer. *)
Definition getitem_slices (a : ndarray) (sls : list slice) : ndarray :=
  let '(d, axs) := slice_axes (nd_axes a) sls in
  NdArray (nd_base a) (nd_offset a + d) axs.

(** ** Broadcasting *)

Definition bcast_dim (d1 d2 : nat) : option nat :=
  if decide (d1 = d2) then Some d1
  else if decide (d1 = 1%nat) then Some d2
  else if decide (d2 = 1%nat) then Some d1
  else None.

(** Shapes are aligned on their last axis, so the recursion runs on the
    reversed shapes. *)
Fixpoint bcast_rev (s1 s2 : list nat) : option (list nat) :=
  match s1, s2 with
  | [], s => Some s
  | s, [] => Some s
  | d1 :: r1, d2 :: r2 =>
      d ← bcast_dim d1 d2; r ← bcast_rev r1 r2; Some (d :: r)
  end.

Definition broadcast_shapes (s1 s2 : list nat) : option (list nat) :=
  reverse <$> bcast_rev (reverse s1) (reverse s2).

(** Axes of a view stretched to a target shape (both reversed): an axis of
    extent 1 and every missing leading axis get stride 0. *)
Fixpoint stretch_rev (axs : list axis) (t : list nat) : option (list axis) :=
  match t, axs with
  | [], [] => Some []
  | [], _ :: _ => None
  | d :: t', [] => r ← stretch_rev [] t'; Some ((d, 0) :: r)
  | d :: t', (n, s) :: axs' =>
      r ← stretch_rev axs' t';
      if decide (n = d) then Some ((d, s) :: r)
      else if decide (n = 1%nat) then Some ((d, 0) :: r)
      else None
  end.

(** [np.broadcast_to(a, t)]. *)
Definition broadcast_to (a : ndarray) (t : list nat) : option ndarray :=
  axs ← stretch_rev (reverse (nd_axes a)) (reverse t);
  Some (NdArray (nd_base a) (nd_offset a) (reverse axs)).

(** [np.broadcast_arrays(a, b)]: both operands stretched to their common
    shape, when the shapes are compatible. *)
Definition broadcast_arrays (a b : ndarray) : option (ndarray * ndarray) :=
  t ← broadcast_shapes (shape a) (shape b);
  a' ← broadcast_to a t;
  b' ← broadcast_to b t;
  Some (a', b').

(** ** Comparison, [np.all], [np.where] *)

(** What [a == b] does when the shapes cannot be broadcast depends on the
    NumPy release: up to 1.24 the comparison gives the scalar [False] (with
    a deprecation warning), from 1.25 on it raises [ValueError].  The
    notebook does not pin a release, so the behaviour is a parameter.
    The elements themselves are compared as the integers they are: both
    operands have the same integer dtype, so NumPy promotes nothing. *)
Inductive eq_mode : Type :=
  | Legacy
  | Strict.

Inductive cmp : Type :=
  | CmpScalar (b : bool)
  | CmpArray (sh : list nat) (bs : list bool).

Definition np_equal (mode : eq_mode) (σ : gmap nat (list Z))
    (a b : ndarray) : res cmp :=
  match broadcast_arrays a b with
  | Some (a', b') =>
      Ok (CmpArray (shape a') (zip_with Z.eqb (ravel σ a') (ravel σ b')))
  | None =>
      match mode with
      | Legacy => Ok (CmpScalar false)
      | Strict => Raise ValueError
      end
  end.

Definition np_all (c : cmp) : bool :=
  match c with
  | CmpScalar b => b
  | CmpArray _ bs => forallb id bs
  end.

(** [a[i]] for an integer [0 <= i]: the sub-array at position [i] of the
    first axis. *)
Definition getitem_int (a : ndarray) (i : nat) : res ndarray :=
  match nd_axes a with
  | [] => Raise IndexError
  | (n, s) :: axs =>
      if decide (i < n)%nat
      then Ok (NdArray (nd_base a) (nd_offset a + Z.of_nat i * s) axs)
      else Raise IndexError
  end.

(** [np.transpose(np.where(a == v))] for a scalar [v]: the coordinates of the
    elements equal to [v], one row per element, in C order.  [v] has the
    dtype of [a], so the comparison is exact integer equality. *)
Definition argwhere_eq (σ : gmap nat (list Z)) (a : ndarray) (v : Z)
    : list (list nat) :=
  filter (λ idx, read σ a idx = v) (indices (shape a)).

(** ** Assignment through a view *)

(** [a[tuple(sls)] = v].  The value is broadcast to the shape of the selected
    region ([ValueError] when it cannot be) and all of it is read before the
    first write, which is how NumPy treats a source that overlaps the
    destination.  Only the buffer of [a] changes.  (A value with more axes
    than the region is rejected here; the callers below always assign a 2-D
    value into a region with at least two axes.) *)
Definition setitem_slices (σ : gmap nat (list Z)) (a : ndarray)
    (sls : list slice) (v : ndarray) : res (gmap nat (list Z)) :=
  let dst := getitem_slices a sls in
  match broadcast_to v (shape dst) with
  | None => Raise ValueError
  | Some v' =>
      let vals := ravel σ v' in
      let writes := zip (addr dst <$> indices (shape dst)) vals in
      Ok (alter (λ buf, foldl (λ b w, buf_set b w.1 w.2) buf writes)
                (nd_base dst) σ)
  end.

(** ** Flips and transposition: views, never copies *)

(** Reversing one axis ([m[::-1]] on that axis): the view starts at the last
    element and walks backwards; an empty axis is left as it is. *)
Definition flip_one (ax : axis) : Z * axis :=
  let '(n, s) := ax in
  if decide (n = 0%nat) then (0, ax) else ((Z.of_nat n - 1) * s, (n, - s)).

Definition flip_axis (a : ndarray) (k : nat) : ndarray :=
  match nd_axes a !! k with
  | Some ax =>
      let '(d, ax') := flip_one ax in
      NdArray (nd_base a) (nd_offset a + d) (<[k := ax']> (nd_axes a))
  | None => a
  end.

Definition np_flipud (m : ndarray) : res ndarray :=
  if decide (ndim m < 1)%nat then Raise ValueError else Ok (flip_axis m 0).

Definition np_fliplr (m : ndarray) : res ndarray :=
  if decide (ndim m < 2)%nat then Raise ValueError else Ok (flip_axis m 1).

(** [np.flip(m)] with no axis: every axis is reversed. *)
Definition np_flip (m : ndarray) : ndarray :=
  foldl flip_axis m (seq 0 (ndim m)).

(** [m.transpose()]: the axes in reverse order. *)
Definition transpose (m : ndarray) : ndarray :=
  NdArray (nd_base m) (nd_offset m) (reverse (nd_axes m)).

(** ** The notebook's functions *)

(** [l[-k]] on a Python sequence that is long enough. *)
Definition neg_index (l : list nat) (k : nat) : nat :=
  l !!! (length l - k)%nat.

(** The slice list built for one candidate corner: extent 1 on every leading
    axis, the pattern's extents on the last two. *)
Definition make_nslice (cand size : list nat) : list slice :=
  ((λ c, (c, c + 1)%nat) <$> take (length cand - 2) cand) ++
  [ (neg_index cand 2, (neg_index cand 2 + neg_index size 2)%nat);
    (neg_index cand 1, (neg_index cand 1 + neg_index size 1)%nat) ].

(** The loop over the candidates, with the two result lists threaded
    through. *)
Fixpoint scan_candidates (mode : eq_mode) (σ : gmap nat (list Z))
    (big_mat small_mat : ndarray) (size : list nat)
    (candidates : list (list nat))
    (acc : list (list nat) * list (list slice))
    : res (list (list nat) * list (list slice)) :=
  match candidates with
  | [] => Ok acc
  | c :: rest =>
      let nslice := make_nslice c size in
      let test_mat := getitem_slices big_mat nslice in
      eq ← np_equal mode σ test_mat small_mat;
      if np_all eq
      then scan_candidates mode σ big_mat small_mat size rest
             (acc.1 ++ [c], acc.2 ++ [nslice])
      else scan_candidates mode σ big_mat small_mat size rest acc
  end.

(** What [find_submatrix] returns: the empty tuple of its guard, or the pair
    [(location_list, nslice_list)]. *)
Inductive found : Type :=
  | EmptyTuple
  | Found (location_list : list (list nat)) (nslice_list : list (list slice)).

Definition find_submatrix (mode : eq_mode) (σ : gmap nat (list Z))
    (big_mat small_mat : ndarray) : res found :=
  if decide ((ndim big_mat < ndim small_mat)%nat ∨ ndim small_mat ≠ 2%nat)
  then Ok EmptyTuple
  else
    let size := shape small_mat in
    row ← getitem_int small_mat 0;
    corner ← getitem_int row 0;
    let candidates := argwhere_eq σ big_mat (read σ corner []) in
    r ← scan_candidates mode σ big_mat small_mat size candidates ([], []);
    Ok (Found r.1 r.2).

Definition rotate_sqcw (mat : ndarray) : res ndarray :=
  mat ← np_flipud mat;
  Ok (transpose mat).

Definition rotate_sqcc (mat : ndarray) : res ndarray :=
  mat ← np_fliplr mat;
  Ok (transpose mat).

Definition rotate_180 (mat : ndarray) : ndarray :=
  np_flip mat.

(** What [rot_submatrix] returns: [None] or the array object it was given. *)
Inductive retval : Type :=
  | RNone
  | RArray (a : ndarray).

(** [big_mat[tuple(nslice[0])] = rot_small_mat; return big_mat]. *)
Definition write_back (σ : gmap nat (list Z)) (big_mat : ndarray)
    (sls : list slice) (rot_small_mat : ndarray)
    : res retval * gmap nat (list Z) :=
  match setitem_slices σ big_mat sls rot_small_mat with
  | Ok σ' => (Ok (RArray big_mat), σ')
  | Raise e => (Raise e, σ)
  end.

(** [rot_submatrix] returns its outcome and the store after the call.
    Python's [%] with divisor 4 or 2 is the floor modulo [Z.modulo]. *)
Definition rot_submatrix (mode : eq_mode) (σ : gmap nat (list Z))
    (big_mat small_mat : ndarray) (increment : Z)
    : res retval * gmap nat (list Z) :=
  if decide (ndim small_mat ≠ 2%nat) then (Ok RNone, σ)
  else if decide (shape small_mat !!! 0%nat ≠ shape small_mat !!! 1%nat)
  then (Ok RNone, σ)
  else
    match find_submatrix mode σ big_mat small_mat with
    | Raise e => (Raise e, σ)
    | Ok EmptyTuple => (Raise IndexError, σ)
    | Ok (Found _ nslice) =>
        match nslice with
        | [] => (Ok RNone, σ)
        | first :: _ =>
            if decide (Z.abs increment mod 4 = 0) then (Ok (RArray big_mat), σ)
            else if decide (Z.abs increment mod 2 = 0)
            then write_back σ big_mat first (rotate_180 small_mat)
            else if decide (increment mod 4 = 1)
            then match rotate_sqcw small_mat with
                 | Ok rot_small_mat => write_back σ big_mat first rot_small_mat
                 | Raise e => (Raise e, σ)
                 end
            else if decide (increment mod 4 = 3)
            then match rotate_sqcc small_mat with
                 | Ok rot_small_mat => write_back σ big_mat first rot_small_mat
                 | Raise e => (Raise e, σ)
                 end
            else (Ok RNone, σ)
        end
    end.

(** ** The notebook's arrays *)

Definition big_mat_data : list Z :=
  [5;2;5;0; 4;5;6;0; 7;8;9;0;  0;0;0;0; 1;5;6;0; 1;8;9;5].
Definition small_mat_data : list Z := [5;6; 8;9].

(** Buffer 0 holds [big_mat], buffer 1 holds [small_mat]. *)
Definition ref_store : gmap nat (list Z) :=
  {[ 0%nat := big_mat_data; 1%nat := small_mat_data ]}.
Definition ref_big : ndarray := np_array 0 [2; 3; 4]%nat.
Definition ref_small : ndarray := np_array 1 [2; 2]%nat.

(** The 4-D array of the notebook's last cell. *)
Definition test_data : list Z :=
  [1;2;3;4; 5;6;7;8; 9;10;11;12;  0;0;0;0; 1;5;6;0; 1;8;9;1;
   2;2;3;4; 5;6;7;8; 9;10;11;12;  0;0;0;0; 1;5;6;0; 1;8;9;1].
Definition test_store : gmap nat (list Z) :=
  {[ 0%nat := test_data; 1%nat := small_mat_data ]}.
Definition test_arr : ndarray := np_array 0 [2; 2; 3; 4]%nat.

(** A 2x2 array whose last row repeats in the pattern. *)
Definition edge_store : gmap nat (list Z) :=
  {[ 0%nat := [0;0; 5;6]; 1%nat := [5;6; 5;6] ]}.
Definition edge_big : ndarray := np_array 0 [2; 2]%nat.
Definition edge_small : ndarray := np_array 1 [2; 2]%nat.

(** A 2x2 array whose last column repeats in the pattern. *)
Definition col_store : gmap nat (list Z) :=
  {[ 0%nat := [0;7; 0;7]; 1%nat := [7;7; 7;7] ]}.
Definition col_big : ndarray := np_array 0 [2; 2]%nat.
Definition col_small : ndarray := np_array 1 [2; 2]%nat.

(** A 1-D array, an empty 2-D pattern, and an array without the pattern. *)
Definition flat_store : gmap nat (list Z) :=
  {[ 0%nat := [5;6]; 1%nat := small_mat_data ]}.
Definition flat_big : ndarray := np_array 0 [2]%nat.

Definition empty_store : gmap nat (list Z) :=
  {[ 0%nat := [1;2; 3;4]; 1%nat := [] ]}.
Definition empty_small : ndarray := np_array 1 [0; 0]%nat.

Definition miss_store : gmap nat (list Z) :=
  {[ 0%nat := [1;2; 3;4]; 1%nat := [9;9; 9;9] ]}.
Definition miss_big : ndarray := np_array 0 [2; 2]%nat.
Definition miss_small : ndarray := np_array 1 [2; 2]%nat.

(** One 2x2 array passed as both the array and the pattern. *)
Definition alias_store : gmap nat (list Z) := {[ 0%nat := [1;2; 3;4] ]}.
Definition alias_mat : ndarray := np_array 0 [2; 2]%nat.

(** Whether a region stays inside the array on every axis. *)
Definition region_in_bounds (a : ndarray) (sls : list slice) : Prop :=
  Forall2 (λ n sl, (sl.2 ≤ n)%nat) (shape a) sls.

(** The test the loop applies to a candidate region. *)
Definition accepted (mode : eq_mode) (σ : gmap nat (list Z))
    (big_mat small_mat : ndarray) (nslice : list slice) : Prop :=
  ∃ c, np_equal mode σ (getitem_slices big_mat nslice) small_mat = Ok c
       ∧ np_all c = true.

(** A 3x1 array and a 3x1 pattern whose only candidate region is cut to
    two rows, which cannot be broadcast against three. *)
Definition tall_store : gmap nat (list Z) :=
  {[ 0%nat := [0; 5; 0]; 1%nat := [5; 0; 0] ]}.
Definition tall_big : ndarray := np_array 0 [3; 1]%nat.
Definition tall_small : ndarray := np_array 1 [3; 1]%nat.

(** ** Vocabulary for the further properties *)

(** The loop's test on one candidate, [np.all(test_mat == small_mat)], with
    shapes that cannot be broadcast counted as a failed test. *)
Definition passes (σ : gmap nat (list Z)) (big_mat small_mat : ndarray)
    (c : list nat) : bool :=
  match broadcast_arrays
          (getitem_slices big_mat (make_nslice c (shape small_mat)))
          small_mat with
  | Some (a', b') => forallb id (zip_with Z.eqb (ravel σ a') (ravel σ b'))
  | None => false
  end.

(** The index [i] rows below and [j] columns right of the corner [loc], on
    the last two axes. *)
Definition corner_shift (loc : list nat) (i j : nat) : list nat :=
  take (length loc - 2) loc
    ++ [(neg_index loc 2 + i)%nat; (neg_index loc 1 + j)%nat].

(** The pattern lies in the array with its top-left element at [loc]:
    the region is inside the bounds and holds the pattern's elements. *)
Definition occurs_at (σ : gmap nat (list Z)) (big_mat small_mat : ndarray)
    (loc : list nat) : Prop :=
  region_in_bounds big_mat (make_nslice loc (shape small_mat))
  ∧ ∀ i j : nat,
      (i < neg_index (shape small_mat) 2)%nat →
      (j < neg_index (shape small_mat) 1)%nat →
      read σ big_mat (corner_shift loc i j) = read σ small_mat [i; j].


(** The place in an [n] x [n] pattern of the element that a rotation by
    [k] quarter turns ([k] = 1: clockwise, 2: half turn, otherwise
    counter-clockwise) puts at [i, j]. *)
Definition rotated_source (n : nat) (k : Z) (i j : nat) : list nat :=
  if decide (k = 1) then [(n - 1 - j)%nat; i]
  else if decide (k = 2) then [(n - 1 - i)%nat; (n - 1 - j)%nat]
  else [j; (n - 1 - i)%nat].

(** * Properties *)

(** ** Arithmetic of the turn count *)

Lemma abs_mod4_zero (z : Z) : Z.abs z mod 4 = 0 ↔ z mod 4 = 0.
Proof.
  rewrite !Z.mod_divide by lia. apply Z.divide_abs_r.
Qed.

Lemma odd_abs_mod (z : Z) :
  Z.odd z = true → Z.abs z mod 4 ≠ 0 ∧ Z.abs z mod 2 ≠ 0.
Proof.
  intros Hodd.
  assert (Hz : z mod 2 = 1) by (by rewrite Zmod_odd, Hodd).
  revert Hz. Z.div_mod_to_equations. lia.
Qed.

Lemma odd_mod4 (z : Z) : Z.odd z = true → z mod 4 = 1 ∨ z mod 4 = 3.
Proof.
  intros Hodd.
  assert (Hz : z mod 2 = 1) by (by rewrite Zmod_odd, Hodd).
  revert Hz. Z.div_mod_to_equations. lia.
Qed.

(** ** Views share the buffer of the array they come from *)

Lemma getitem_slices_base (a : ndarray) (sls : list slice) :
  nd_base (getitem_slices a sls) = nd_base a.
Proof. unfold getitem_slices. by destruct (slice_axes _ _). Qed.

Lemma flip_axis_base (a : ndarray) (k : nat) :
  nd_base (flip_axis a k) = nd_base a.
Proof.
  unfold flip_axis. destruct (nd_axes a !! k) as [ax |]; [| done].
  by destruct (flip_one ax).
Qed.

Lemma np_flip_base (m : ndarray) : nd_base (np_flip m) = nd_base m.
Proof.
  unfold np_flip. generalize (seq 0 (ndim m)). intros ks.
  revert m. induction ks as [| k ks IH]; intros m; [done |].
  simpl. rewrite IH. apply flip_axis_base.
Qed.

Lemma rotate_sqcw_base (m m' : ndarray) :
  rotate_sqcw m = Ok m' → nd_base m' = nd_base m.
Proof.
  unfold rotate_sqcw, np_flipud. case_decide; [done |].
  intros [= <-]. simpl. apply flip_axis_base.
Qed.

Lemma rotate_sqcc_base (m m' : ndarray) :
  rotate_sqcc m = Ok m' → nd_base m' = nd_base m.
Proof.
  unfold rotate_sqcc, np_fliplr. case_decide; [done |].
  intros [= <-]. simpl. apply flip_axis_base.
Qed.

Lemma rotate_180_base (m : ndarray) : nd_base (rotate_180 m) = nd_base m.
Proof. apply np_flip_base. Qed.

(** ** Assignment touches one buffer only *)

Lemma setitem_slices_frame (σ σ' : gmap nat (list Z)) (a v : ndarray)
    (sls : list slice) (k : nat) :
  setitem_slices σ a sls v = Ok σ' → k ≠ nd_base a → σ' !! k = σ !! k.
Proof.
  unfold setitem_slices. destruct (broadcast_to _ _); [| done].
  intros [= <-] Hk. rewrite getitem_slices_base.
  by rewrite lookup_alter_ne.
Qed.

Lemma write_back_frame (σ σ' : gmap nat (list Z)) (a v : ndarray)
    (sls : list slice) (r : res retval) (k : nat) :
  write_back σ a sls v = (r, σ') → k ≠ nd_base a → σ' !! k = σ !! k.
Proof.
  unfold write_back.
  destruct (setitem_slices σ a sls v) as [σ1 |] eqn:Hset;
    intros [= <- <-] Hk; [| done].
  by eapply setitem_slices_frame.
Qed.

Lemma rot_submatrix_frame (mode : eq_mode) (σ σ' : gmap nat (list Z))
    (big_mat small_mat : ndarray) (increment : Z) (r : res retval) (k : nat) :
  rot_submatrix mode σ big_mat small_mat increment = (r, σ') →
  k ≠ nd_base big_mat → σ' !! k = σ !! k.
Proof.
  unfold rot_submatrix. intros H Hk.
  repeat case_decide; simplify_eq; try done.
  all: destruct (find_submatrix _ _ _ _) as [[| locs [| first rest]] |];
    simplify_eq; try done.
  all: repeat case_decide; simplify_eq; try done.
  all: try (by eapply write_back_frame).
  - destruct (rotate_sqcw small_mat); simplify_eq; [| done].
    by eapply write_back_frame.
  - destruct (rotate_sqcc small_mat); simplify_eq; [| done].
    by eapply write_back_frame.
Qed.

Lemma ravel_same_buffer (σ σ' : gmap nat (list Z)) (a : ndarray) :
  σ' !! nd_base a = σ !! nd_base a → ravel σ' a = ravel σ a.
Proof.
  intros H. unfold ravel. apply list_fmap_ext. intros i idx _.
  unfold read, buffer_of. by rewrite H.
Qed.

(** ** What the rotation helpers compute *)

(** The lemmas are about an arbitrary 2-D view
    [NdArray b off [(n0, s0); (n1, s1)]]. *)

(** Clockwise: element [i, j] moves to [j, rows - 1 - i]. *)
Lemma rotate_sqcw_read (σ : gmap nat (list Z)) (b : nat) (off : Z)
    (n0 n1 : nat) (s0 s1 : Z) (i j : nat) :
  (i < n0)%nat → (j < n1)%nat →
  ∃ m', rotate_sqcw (NdArray b off [(n0, s0); (n1, s1)]) = Ok m'
        ∧ shape m' = [n1; n0]
        ∧ read σ m' [j; (n0 - 1 - i)%nat]
            = read σ (NdArray b off [(n0, s0); (n1, s1)]) [i; j].
Proof.
  intros Hi Hj. unfold rotate_sqcw, np_flipud, flip_axis, flip_one. simpl.
  destruct (decide (n0 = 0%nat)) as [Hn0 | Hn0]; [lia |].
  eexists. split; [done |]. split; [done |].
  unfold read, addr, buffer_of. simpl. f_equal.
  rewrite !Nat2Z.inj_sub by lia. simpl. ring.
Qed.

(** Counter-clockwise: element [i, j] moves to [cols - 1 - j, i]. *)
Lemma rotate_sqcc_read (σ : gmap nat (list Z)) (b : nat) (off : Z)
    (n0 n1 : nat) (s0 s1 : Z) (i j : nat) :
  (i < n0)%nat → (j < n1)%nat →
  ∃ m', rotate_sqcc (NdArray b off [(n0, s0); (n1, s1)]) = Ok m'
        ∧ shape m' = [n1; n0]
        ∧ read σ m' [(n1 - 1 - j)%nat; i]
            = read σ (NdArray b off [(n0, s0); (n1, s1)]) [i; j].
Proof.
  intros Hi Hj. unfold rotate_sqcc, np_fliplr, flip_axis, flip_one. simpl.
  destruct (decide (n1 = 0%nat)) as [Hn1 | Hn1]; [lia |].
  eexists. split; [done |]. split; [done |].
  unfold read, addr, buffer_of. simpl. f_equal.
  rewrite !Nat2Z.inj_sub by lia. simpl. ring.
Qed.

(** Half turn: element [i, j] moves to [rows - 1 - i, cols - 1 - j]. *)
Lemma rotate_180_read (σ : gmap nat (list Z)) (b : nat) (off : Z)
    (n0 n1 : nat) (s0 s1 : Z) (i j : nat) :
  (i < n0)%nat → (j < n1)%nat →
  shape (rotate_180 (NdArray b off [(n0, s0); (n1, s1)])) = [n0; n1]
  ∧ read σ (rotate_180 (NdArray b off [(n0, s0); (n1, s1)]))
         [(n0 - 1 - i)%nat; (n1 - 1 - j)%nat]
      = read σ (NdArray b off [(n0, s0); (n1, s1)]) [i; j].
Proof.
  intros Hi Hj. unfold rotate_180, np_flip, flip_axis, flip_one. simpl.
  destruct (decide (n0 = 0%nat)) as [Hn0 | Hn0]; [lia |]. simpl.
  destruct (decide (n1 = 0%nat)) as [Hn1 | Hn1]; [lia |]. simpl.
  split; [done |].
  unfold read, addr, buffer_of. simpl. f_equal.
  rewrite !Nat2Z.inj_sub by lia. simpl. ring.
Qed.

(** The two quarter turns undo each other on the view itself. *)
Lemma rotate_sqcw_sqcc_view (b : nat) (off : Z) (n0 n1 : nat) (s0 s1 : Z) :
  rotate_sqcw (NdArray b off [(n0, s0); (n1, s1)]) ≫= rotate_sqcc
    = Ok (NdArray b off [(n0, s0); (n1, s1)]).
Proof.
  unfold rotate_sqcw, rotate_sqcc, np_flipud, np_fliplr, flip_axis, flip_one.
  simpl. destruct (decide (n0 = 0%nat)) as [Hn0 | Hn0]; simpl.
  - rewrite decide_True by done. unfold transpose. simpl.
    do 2 f_equal. lia.
  - rewrite decide_False by done. unfold transpose. simpl.
    rewrite Z.opp_involutive. do 2 f_equal. ring.
Qed.

(** ** Every recorded placement passed the comparison *)

Lemma scan_candidates_accepted (mode : eq_mode) (σ : gmap nat (list Z))
    (big_mat small_mat : ndarray) (size : list nat)
    (candidates : list (list nat)) :
  ∀ acc r,
    Forall (accepted mode σ big_mat small_mat) acc.2 →
    scan_candidates mode σ big_mat small_mat size candidates acc = Ok r →
    Forall (accepted mode σ big_mat small_mat) r.2.
Proof.
  induction candidates as [| c rest IH]; intros acc r Hacc; simpl.
  - by intros [= <-].
  - destruct (np_equal _ _ _ _) as [eq |] eqn:Heq; simpl; [| done].
    destruct (np_all eq) eqn:Hall; intros Hscan.
    + eapply IH; [| exact Hscan]. simpl. apply Forall_app. split; [done |].
      apply Forall_singleton. by exists eq.
    + by apply (IH _ _ Hacc Hscan).
Qed.

Lemma scan_candidates_lengths (mode : eq_mode) (σ : gmap nat (list Z))
    (big_mat small_mat : ndarray) (size : list nat)
    (candidates : list (list nat)) :
  ∀ acc r,
    length acc.1 = length acc.2 →
    scan_candidates mode σ big_mat small_mat size candidates acc = Ok r →
    length r.1 = length r.2.
Proof.
  induction candidates as [| c rest IH]; intros acc r Hacc; simpl.
  - by intros [= <-].
  - destruct (np_equal _ _ _ _) as [eq |]; simpl; [| done].
    destruct (np_all eq); intros Hscan.
    + eapply IH; [| exact Hscan]. simpl. rewrite !length_app. simpl. lia.
    + by apply (IH _ _ Hacc Hscan).
Qed.

Lemma find_submatrix_accepted (mode : eq_mode) (σ : gmap nat (list Z))
    (big_mat small_mat : ndarray) (locs : list (list nat))
    (nslices : list (list slice)) :
  find_submatrix mode σ big_mat small_mat = Ok (Found locs nslices) →
  Forall (accepted mode σ big_mat small_mat) nslices
  ∧ length locs = length nslices.
Proof.
  unfold find_submatrix. case_decide; [done |].
  destruct (getitem_int small_mat 0) as [row |]; simpl; [| done].
  destruct (getitem_int row 0) as [corner |]; simpl; [| done].
  destruct (scan_candidates _ _ _ _ _ _ _) as [r |] eqn:Hscan; simpl; [| done].
  intros [= <- <-]. split.
  - by eapply scan_candidates_accepted; [| exact Hscan].
  - by eapply scan_candidates_lengths; [| exact Hscan].
Qed.

(** ** The notebook's recorded run, and the two comparison modes *)

(** The last cell prints the locations [0,1,1,1] and [1,1,1,1]. *)
Lemma find_submatrix_4d_test (mode : eq_mode) :
  find_submatrix mode test_store test_arr ref_small
    = Ok (Found [[0; 1; 1; 1]; [1; 1; 1; 1]]%nat
                [[(0, 1); (1, 2); (1, 3); (1, 3)];
                 [(1, 2); (1, 2); (1, 3); (1, 3)]]%nat).
Proof. by destruct mode; vm_compute. Qed.

(** A region cut to a shape that cannot be broadcast is skipped by the
    older comparison and makes the newer one raise. *)
Lemma find_submatrix_mismatch_modes :
  find_submatrix Legacy tall_store tall_big tall_small = Ok (Found [] [])
  ∧ find_submatrix Strict tall_store tall_big tall_small = Raise ValueError.
Proof. by vm_compute. Qed.

(** * The claims *)

(** ** Placements found by [find_submatrix] *)

(** C1. A placement returned by [find_submatrix] need not cover a block
    equal to the pattern.  On the array [[0,0],[5,6]] with the pattern
    [[5,6],[5,6]] the only candidate is the corner (1,0); its slice
    [1:3, 0:2] is cut at the array's edge to the single row [[5,6]], the
    comparison broadcasts that row over the pattern's two rows, and the
    placement is recorded although the extracted block has shape (1,2) and
    the pattern shape (2,2). *)
Theorem find_submatrix_truncated_row_match (mode : eq_mode) :
  find_submatrix mode edge_store edge_big edge_small
    = Ok (Found [[1; 0]%nat] [[(1, 3); (0, 2)]%nat])
  ∧ shape (getitem_slices edge_big [(1, 3); (0, 2)]%nat) = [1; 2]%nat
  ∧ shape edge_small = [2; 2]%nat
  ∧ ravel edge_store (getitem_slices edge_big [(1, 3); (0, 2)]%nat) = [5; 6]
  ∧ ravel edge_store edge_small = [5; 6; 5; 6].
Proof. by destruct mode; vm_compute. Qed.

(** C2. A candidate whose region runs past the array's bounds can be
    recorded.  On the array [[0,7],[0,7]] with the pattern [[7,7],[7,7]]
    both candidates (0,1) and (1,1) have regions ending at column 3 of a
    2-column array (the second also at row 3 of 2 rows); both are returned
    as placements. *)
Theorem find_submatrix_records_out_of_bounds (mode : eq_mode) :
  find_submatrix mode col_store col_big col_small
    = Ok (Found [[0; 1]; [1; 1]]%nat
                [[(0, 2); (1, 3)]; [(1, 3); (1, 3)]]%nat)
  ∧ shape col_big = [2; 2]%nat
  ∧ ¬ region_in_bounds col_big [(0, 2); (1, 3)]%nat
  ∧ ¬ region_in_bounds col_big [(1, 3); (1, 3)]%nat.
Proof.
  split; [by destruct mode; vm_compute |]. split; [done |].
  unfold region_in_bounds.
  split; intros H; vm_compute in H; decompose_Forall_hyps; lia.
Qed.

(** C8. A pattern that is not 2-dimensional, or that has more dimensions
    than the array, makes [find_submatrix] return the empty tuple, without
    an error. *)
Theorem find_submatrix_bad_ndim (mode : eq_mode) (σ : gmap nat (list Z))
    (big_mat small_mat : ndarray) :
  ndim small_mat ≠ 2%nat ∨ (ndim big_mat < ndim small_mat)%nat →
  find_submatrix mode σ big_mat small_mat = Ok EmptyTuple.
Proof.
  intros H. unfold find_submatrix. rewrite decide_True; [done | tauto].
Qed.

Lemma find_submatrix_bad_ndim_witness :
  find_submatrix Strict flat_store flat_big ref_small = Ok EmptyTuple.
Proof.
  apply (find_submatrix_bad_ndim Strict flat_store flat_big ref_small).
  right. vm_compute. lia.
Defined.

(** ** The quarter turns *)

(** C7. On every square 2-D matrix the counter-clockwise quarter turn of
    the clockwise quarter turn is the matrix itself: the same view, hence
    the same elements at the same places. *)
Theorem rotate_sqcc_rotate_sqcw (m : ndarray) :
  ndim m = 2%nat → shape m !!! 0%nat = shape m !!! 1%nat →
  ∃ cw, rotate_sqcw m = Ok cw ∧ rotate_sqcc cw = Ok m.
Proof.
  intros Hdim _. destruct m as [b off axs]. unfold ndim in Hdim. simpl in Hdim.
  destruct axs as [| [n0 s0] [| [n1 s1] [| ? ?]]]; try done.
  pose proof (rotate_sqcw_sqcc_view b off n0 n1 s0 s1) as Hview.
  destruct (rotate_sqcw _) as [cw |]; [| done].
  by exists cw.
Qed.

Lemma rotate_sqcc_rotate_sqcw_witness :
  ∃ cw, rotate_sqcw ref_small = Ok cw ∧ rotate_sqcc cw = Ok ref_small.
Proof.
  apply (rotate_sqcc_rotate_sqcw ref_small); vm_compute; reflexivity.
Defined.

(** ** [rot_submatrix] *)

(** C3. With no placement found, [rot_submatrix] does not return the
    array.  The pattern [[9,9],[9,9]] occurs nowhere in [[1,2],[3,4]]:
    [find_submatrix] returns two empty lists, [if nslice:] is false and the
    function ends without a [return], so the call gives [None]; the array is
    untouched and nothing is raised.  The other path that changes nothing,
    a multiple of 4 as turn count, does return [big_mat]. *)
Lemma rot_submatrix_no_match_not_array :
  find_submatrix Legacy miss_store miss_big miss_small = Ok (Found [] [])
  ∧ find_submatrix Strict miss_store miss_big miss_small = Ok (Found [] [])
  ∧ rot_submatrix Legacy miss_store miss_big miss_small 1
      = (Ok RNone, miss_store)
  ∧ rot_submatrix Strict miss_store miss_big miss_small 1
      = (Ok RNone, miss_store)
  ∧ (rot_submatrix Legacy miss_store miss_big miss_small 1).1
      ≠ Ok (RArray miss_big)
  ∧ (rot_submatrix Strict miss_store miss_big miss_small 1).1
      ≠ Ok (RArray miss_big).
Proof. by vm_compute. Qed.

(** The same on every input: when [find_submatrix] returns an empty list
    of placements, [rot_submatrix] mutates nothing, raises nothing and
    returns [None], whatever the turn count. *)
Theorem rot_submatrix_no_match (mode : eq_mode) (σ : gmap nat (list Z))
    (big_mat small_mat : ndarray) (increment : Z) (locs : list (list nat)) :
  ndim small_mat = 2%nat →
  shape small_mat !!! 0%nat = shape small_mat !!! 1%nat →
  find_submatrix mode σ big_mat small_mat = Ok (Found locs []) →
  rot_submatrix mode σ big_mat small_mat increment = (Ok RNone, σ).
Proof.
  intros Hdim Hsq Hfind. unfold rot_submatrix.
  rewrite decide_False by (by intros ?).
  rewrite decide_False by (by intros ?).
  by rewrite Hfind.
Qed.

Lemma rot_submatrix_no_match_witness :
  rot_submatrix Strict miss_store miss_big miss_small 3
    = (Ok RNone, miss_store).
Proof.
  apply (rot_submatrix_no_match Strict miss_store miss_big miss_small 3 []);
    vm_compute; reflexivity.
Defined.

(** C4. Neither function is total.  [rot_submatrix] on the 1-D array [5,6]
    takes item 1 of the empty tuple that [find_submatrix] returns for it and
    raises [IndexError]; [find_submatrix] with an empty 0x0 pattern raises
    [IndexError] at [small_mat[0][0]]; and [rot_submatrix] on the truncated
    placement of [edge_big] raises [ValueError] when the 2x2 rotated block
    is assigned to the 1x2 region. *)
Theorem operations_not_total (mode : eq_mode) :
  find_submatrix mode flat_store flat_big ref_small = Ok EmptyTuple
  ∧ (rot_submatrix mode flat_store flat_big ref_small 1).1 = Raise IndexError
  ∧ find_submatrix mode empty_store miss_big empty_small = Raise IndexError
  ∧ (rot_submatrix mode edge_store edge_big edge_small 1).1 = Raise ValueError.
Proof. by destruct mode; vm_compute. Qed.

(** C5. With a square 2-D pattern and a turn count that is a multiple of 4,
    [rot_submatrix] leaves the store, and so the array, exactly as it was;
    when a placement exists it returns the array.  On the notebook's array
    with [turns = 16] the array is returned and nothing has changed. *)
Theorem rot_submatrix_full_turns (mode : eq_mode) (σ : gmap nat (list Z))
    (big_mat small_mat : ndarray) (increment : Z) :
  ndim small_mat = 2%nat →
  shape small_mat !!! 0%nat = shape small_mat !!! 1%nat →
  increment mod 4 = 0 →
  (rot_submatrix mode σ big_mat small_mat increment).2 = σ
  ∧ ravel (rot_submatrix mode σ big_mat small_mat increment).2 big_mat
      = ravel σ big_mat
  ∧ (∀ locs first rest,
       find_submatrix mode σ big_mat small_mat
         = Ok (Found locs (first :: rest)) →
       (rot_submatrix mode σ big_mat small_mat increment).1
         = Ok (RArray big_mat))
  ∧ rot_submatrix mode ref_store ref_big ref_small 16
      = (Ok (RArray ref_big), ref_store).
Proof.
  intros Hdim Hsq Hinc. apply abs_mod4_zero in Hinc.
  assert (Hstore : (rot_submatrix mode σ big_mat small_mat increment).2 = σ).
  { unfold rot_submatrix. repeat case_decide; try done.
    all: by destruct (find_submatrix _ _ _ _) as [[| ? [| ? ?]] |]. }
  split; [done |]. split; [by rewrite Hstore |]. split.
  - intros locs first rest Hfind. unfold rot_submatrix.
    rewrite decide_False by (by intros ?).
    rewrite decide_False by (by intros ?).
    rewrite Hfind. by rewrite decide_True.
  - by destruct mode; vm_compute.
Qed.

Lemma rot_submatrix_full_turns_witness :
  (rot_submatrix Legacy ref_store ref_big ref_small (-8)).2 = ref_store
  ∧ (rot_submatrix Legacy ref_store ref_big ref_small (-8)).1
      = Ok (RArray ref_big).
Proof.
  destruct (rot_submatrix_full_turns Legacy ref_store ref_big ref_small (-8))
    as (Hstore & _ & Hret & _); [reflexivity | reflexivity | reflexivity |].
  split; [exact Hstore |].
  eapply Hret. vm_compute. reflexivity.
Defined.

(** C6. On the notebook's array with [turns = 1] the call returns the
    array; the region [0:1, 1:3, 1:3] of the first placement now holds
    [[8,5],[9,6]], the clockwise rotation of the pattern; the elements that
    differ from the input are exactly the four of that region. *)
Theorem rot_submatrix_reference_quarter_turn (mode : eq_mode) :
  find_submatrix mode ref_store ref_big ref_small
    = Ok (Found [[0; 1; 1]; [1; 1; 1]]%nat
                [[(0, 1); (1, 3); (1, 3)]; [(1, 2); (1, 3); (1, 3)]]%nat)
  ∧ (rot_submatrix mode ref_store ref_big ref_small 1).1 = Ok (RArray ref_big)
  ∧ ravel (rot_submatrix mode ref_store ref_big ref_small 1).2
          (getitem_slices ref_big [(0, 1); (1, 3); (1, 3)]%nat)
      = [8; 5; 9; 6]
  ∧ (rotate_sqcw ref_small ≫= λ cw, Ok (ravel ref_store cw))
      = Ok [8; 5; 9; 6]
  ∧ ravel (rot_submatrix mode ref_store ref_big ref_small 1).2 ref_big
      = [5;2;5;0; 4;8;5;0; 7;9;6;0;  0;0;0;0; 1;5;6;0; 1;8;9;5]
  ∧ filter (λ idx,
        read (rot_submatrix mode ref_store ref_big ref_small 1).2 ref_big idx
          ≠ read ref_store ref_big idx)
      (indices (shape ref_big))
      = [[0; 1; 1]; [0; 1; 2]; [0; 2; 1]; [0; 2; 2]]%nat.
Proof. by destruct mode; vm_compute. Qed.

(** C9. For an odd turn count, of either sign, the branch is chosen by the
    floor modulo [increment % 4], which is 1 or 3: with remainder 1 the
    block written at the first placement is [rotate_sqcw small_mat], with
    remainder 3 it is [rotate_sqcc small_mat].  The turn counts 1, 5 and -3
    have remainder 1; 3 and -1 have remainder 3. *)
Theorem rot_submatrix_odd_turns (mode : eq_mode) (σ : gmap nat (list Z))
    (big_mat small_mat : ndarray) (increment : Z)
    (locs : list (list nat)) (first : list slice) (rest : list (list slice)) :
  ndim small_mat = 2%nat →
  shape small_mat !!! 0%nat = shape small_mat !!! 1%nat →
  Z.odd increment = true →
  find_submatrix mode σ big_mat small_mat = Ok (Found locs (first :: rest)) →
  (increment mod 4 = 1 ∨ increment mod 4 = 3)
  ∧ (increment mod 4 = 1 →
       ∃ cw, rotate_sqcw small_mat = Ok cw
             ∧ rot_submatrix mode σ big_mat small_mat increment
                 = write_back σ big_mat first cw)
  ∧ (increment mod 4 = 3 →
       ∃ cc, rotate_sqcc small_mat = Ok cc
             ∧ rot_submatrix mode σ big_mat small_mat increment
                 = write_back σ big_mat first cc)
  ∧ 1 mod 4 = 1 ∧ 5 mod 4 = 1 ∧ (-3) mod 4 = 1
  ∧ 3 mod 4 = 3 ∧ (-1) mod 4 = 3.
Proof.
  intros Hdim Hsq Hodd Hfind.
  destruct (odd_abs_mod increment Hodd) as [Habs4 Habs2].
  split; [by apply odd_mod4 |].
  assert (Hrot : ∀ k, k = 1 ∨ k = 3 → increment mod 4 = k →
    rot_submatrix mode σ big_mat small_mat increment
      = match (if decide (k = 1) then rotate_sqcw small_mat
               else rotate_sqcc small_mat) with
        | Ok rot => write_back σ big_mat first rot
        | Raise e => (Raise e, σ)
        end).
  { intros k Hk Hmod. unfold rot_submatrix.
    rewrite decide_False by (by intros ?).
    rewrite decide_False by (by intros ?).
    rewrite Hfind, (decide_False (P := Z.abs increment mod 4 = 0)) by done.
    rewrite (decide_False (P := Z.abs increment mod 2 = 0)) by done.
    rewrite Hmod. destruct Hk as [-> | ->]; by repeat case_decide. }
  assert (Hud : ∃ cw, rotate_sqcw small_mat = Ok cw).
  { unfold rotate_sqcw, np_flipud. rewrite decide_False by lia. by eexists. }
  assert (Hlr : ∃ cc, rotate_sqcc small_mat = Ok cc).
  { unfold rotate_sqcc, np_fliplr. rewrite decide_False by lia. by eexists. }
  destruct Hud as [cw Hcw], Hlr as [cc Hcc].
  split; [| split; [| done]].
  - intros Hmod. exists cw. split; [done |].
    rewrite (Hrot 1) by auto. simpl. by rewrite Hcw.
  - intros Hmod. exists cc. split; [done |].
    rewrite (Hrot 3) by auto. simpl. by rewrite Hcc.
Qed.

(** With [turns = -3] the notebook's array gets the clockwise block
    [[8,5],[9,6]], with [turns = -1] the counter-clockwise block
    [[6,9],[5,8]]. *)
Lemma rot_submatrix_odd_turns_witness :
  ravel (rot_submatrix Legacy ref_store ref_big ref_small (-3)).2 ref_big
    = [5;2;5;0; 4;8;5;0; 7;9;6;0;  0;0;0;0; 1;5;6;0; 1;8;9;5]
  ∧ ravel (rot_submatrix Legacy ref_store ref_big ref_small (-1)).2 ref_big
    = [5;2;5;0; 4;6;9;0; 7;5;8;0;  0;0;0;0; 1;5;6;0; 1;8;9;5].
Proof.
  split.
  - destruct (rot_submatrix_odd_turns Legacy ref_store ref_big ref_small (-3)
      [[0; 1; 1]; [1; 1; 1]]%nat [(0, 1); (1, 3); (1, 3)]%nat
      [[(1, 2); (1, 3); (1, 3)]%nat])
      as (_ & Hcw & _); [reflexivity | reflexivity | reflexivity
                        | vm_compute; reflexivity |].
    destruct (Hcw eq_refl) as (cw & Hrot & ->).
    injection Hrot as <-. vm_compute. reflexivity.
  - destruct (rot_submatrix_odd_turns Legacy ref_store ref_big ref_small (-1)
      [[0; 1; 1]; [1; 1; 1]]%nat [(0, 1); (1, 3); (1, 3)]%nat
      [[(1, 2); (1, 3); (1, 3)]%nat])
      as (_ & _ & Hcc & _); [reflexivity | reflexivity | reflexivity
                            | vm_compute; reflexivity |].
    destruct (Hcc eq_refl) as (cc & Hrot & ->).
    injection Hrot as <-. vm_compute. reflexivity.
Defined.

(** C10, as the claim has it, fails when the pattern shares its buffer
    with the array: the rotation helpers return views, not copies, and the
    write into the array is a write into the pattern.  Here one 2x2 array
    [[1,2],[3,4]] is passed as both arguments. *)
Lemma rot_submatrix_aliased_pattern_changes :
  (rot_submatrix Legacy alias_store alias_mat alias_mat 1).1
    = Ok (RArray alias_mat)
  ∧ ravel alias_store alias_mat = [1; 2; 3; 4]
  ∧ ravel (rot_submatrix Legacy alias_store alias_mat alias_mat 1).2 alias_mat
    = [3; 1; 4; 2]
  ∧ ravel (rot_submatrix Legacy alias_store alias_mat alias_mat 1).2 alias_mat
    ≠ ravel alias_store alias_mat.
Proof. by vm_compute. Qed.

(** C10, amended.  When the pattern's buffer is not the array's buffer,
    [rot_submatrix] leaves that buffer, and so every element of the pattern,
    as it was, whatever the turn count and the outcome.  The rotation
    helpers take no store: they build views onto the buffer of their input
    and write nothing; the only write goes through a view of the array. *)
Theorem rot_submatrix_pattern_unchanged (mode : eq_mode)
    (σ : gmap nat (list Z)) (big_mat small_mat : ndarray) (increment : Z) :
  nd_base small_mat ≠ nd_base big_mat →
  (rot_submatrix mode σ big_mat small_mat increment).2 !! nd_base small_mat
    = σ !! nd_base small_mat
  ∧ ravel (rot_submatrix mode σ big_mat small_mat increment).2 small_mat
    = ravel σ small_mat
  ∧ (∀ cw, rotate_sqcw small_mat = Ok cw → nd_base cw = nd_base small_mat)
  ∧ (∀ cc, rotate_sqcc small_mat = Ok cc → nd_base cc = nd_base small_mat)
  ∧ nd_base (rotate_180 small_mat) = nd_base small_mat.
Proof.
  intros Hne.
  destruct (rot_submatrix mode σ big_mat small_mat increment) as [r σ'] eqn:Hrot.
  simpl.
  assert (Hbuf : σ' !! nd_base small_mat = σ !! nd_base small_mat)
    by (by eapply rot_submatrix_frame).
  split; [done |]. split; [by apply ravel_same_buffer |].
  split; [apply rotate_sqcw_base |].
  split; [apply rotate_sqcc_base | apply rotate_180_base].
Qed.

Lemma rot_submatrix_pattern_unchanged_witness :
  ravel (rot_submatrix Legacy ref_store ref_big ref_small 1).2 ref_small
    = ravel ref_store ref_small.
Proof.
  apply (rot_submatrix_pattern_unchanged Legacy ref_store ref_big ref_small 1).
  vm_compute. lia.
Defined.

(** * Further properties of the code *)

(** ** Exits of [rot_submatrix] that do not touch the array *)

(** A pattern that is not 2-dimensional, or whose two extents differ,
    makes [rot_submatrix] return [None] at once: nothing is searched, nothing
    is written and nothing is raised, whatever the array. *)
Theorem rot_submatrix_bad_pattern (mode : eq_mode) (σ : gmap nat (list Z))
    (big_mat small_mat : ndarray) (increment : Z) :
  ndim small_mat ≠ 2%nat
    ∨ shape small_mat !!! 0%nat ≠ shape small_mat !!! 1%nat →
  rot_submatrix mode σ big_mat small_mat increment = (Ok RNone, σ).
Proof.
  intros [Hdim | Hsq]; unfold rot_submatrix.
  - by rewrite decide_True.
  - case_decide; [done |]. by rewrite decide_True.
Qed.

Lemma rot_submatrix_bad_pattern_witness :
  rot_submatrix Strict flat_store flat_big (np_array 1 [1; 4]%nat) 1
    = (Ok RNone, flat_store).
Proof.
  apply (rot_submatrix_bad_pattern Strict flat_store flat_big
           (np_array 1 [1; 4]%nat) 1).
  right. vm_compute. lia.
Defined.

(** X1. With a square 2-D pattern, an array of fewer than two dimensions
    always makes [rot_submatrix] raise [IndexError]: [find_submatrix]
    answers with the empty tuple and item 1 of it is taken.  The array is
    left as it was. *)
Theorem rot_submatrix_low_dim_raises (mode : eq_mode) (σ : gmap nat (list Z))
    (big_mat small_mat : ndarray) (increment : Z) :
  ndim small_mat = 2%nat →
  shape small_mat !!! 0%nat = shape small_mat !!! 1%nat →
  (ndim big_mat < 2)%nat →
  rot_submatrix mode σ big_mat small_mat increment = (Raise IndexError, σ).
Proof.
  intros Hdim Hsq Hbig. unfold rot_submatrix, find_submatrix.
  rewrite decide_False by (by intros ?).
  rewrite decide_False by (by intros ?).
  rewrite decide_True; [done | left; lia].
Qed.

Lemma rot_submatrix_low_dim_raises_witness :
  rot_submatrix Legacy flat_store flat_big ref_small 4
    = (Raise IndexError, flat_store).
Proof.
  apply (rot_submatrix_low_dim_raises Legacy flat_store flat_big ref_small 4);
    vm_compute; (reflexivity || lia).
Defined.

(** X2. The store changes only on a call that returns the array: when
    [rot_submatrix] returns [None] or raises, every buffer is as before. *)
Theorem rot_submatrix_failure_atomic (mode : eq_mode) (σ : gmap nat (list Z))
    (big_mat small_mat : ndarray) (increment : Z) :
  (rot_submatrix mode σ big_mat small_mat increment).1 ≠ Ok (RArray big_mat) →
  (rot_submatrix mode σ big_mat small_mat increment).2 = σ.
Proof.
  assert (Hwb : ∀ sls v,
    (write_back σ big_mat sls v).1 ≠ Ok (RArray big_mat) →
    (write_back σ big_mat sls v).2 = σ).
  { intros sls v. unfold write_back.
    by destruct (setitem_slices σ big_mat sls v). }
  unfold rot_submatrix. repeat case_decide; try done.
  all: destruct (find_submatrix _ _ _ _) as [[| locs [| first rest]] |];
    try done.
  all: repeat case_decide; try done; try apply Hwb.
  - destruct (rotate_sqcw small_mat); [apply Hwb | done].
  - destruct (rotate_sqcc small_mat); [apply Hwb | done].
Qed.

Lemma rot_submatrix_failure_atomic_witness :
  (rot_submatrix Strict edge_store edge_big edge_small 1).2 = edge_store.
Proof.
  apply (rot_submatrix_failure_atomic Strict edge_store edge_big edge_small 1).
  vm_compute. discriminate.
Defined.

(** ** The turn count *)

(** X3. Only the remainder of the turn count modulo 4 matters: a call with
    [increment] does exactly what the call with [increment mod 4] does,
    for negative counts too. *)
Theorem rot_submatrix_mod4 (mode : eq_mode) (σ : gmap nat (list Z))
    (big_mat small_mat : ndarray) (increment : Z) :
  rot_submatrix mode σ big_mat small_mat increment
    = rot_submatrix mode σ big_mat small_mat (increment mod 4).
Proof.
  unfold rot_submatrix. repeat case_decide; try done.
  all: destruct (find_submatrix _ _ _ _) as [[| locs [| first rest]] |];
    try done.
  all: repeat case_decide; try done.
  all: exfalso; Z.div_mod_to_equations; lia.
Qed.

(** X4. For an even turn count that is not a multiple of 4, of either sign,
    the value assigned at the first placement's slice is
    [rotate_180 small_mat], and the call ends as that one assignment does:
    when the assignment succeeds the array is returned with the store the
    assignment leaves; when it raises (a first placement cut at the array's
    edge) the call raises the same error and the store is as before. *)
Theorem rot_submatrix_half_turn (mode : eq_mode) (σ : gmap nat (list Z))
    (big_mat small_mat : ndarray) (increment : Z)
    (locs : list (list nat)) (first : list slice) (rest : list (list slice)) :
  ndim small_mat = 2%nat →
  shape small_mat !!! 0%nat = shape small_mat !!! 1%nat →
  increment mod 4 = 2 →
  find_submatrix mode σ big_mat small_mat = Ok (Found locs (first :: rest)) →
  rot_submatrix mode σ big_mat small_mat increment
    = write_back σ big_mat first (rotate_180 small_mat)
  ∧ match setitem_slices σ big_mat first (rotate_180 small_mat) with
    | Ok σ' =>
        rot_submatrix mode σ big_mat small_mat increment
          = (Ok (RArray big_mat), σ')
    | Raise e =>
        rot_submatrix mode σ big_mat small_mat increment = (Raise e, σ)
    end.
Proof.
  intros Hdim Hsq Hinc Hfind.
  assert (Hwb : rot_submatrix mode σ big_mat small_mat increment
                = write_back σ big_mat first (rotate_180 small_mat)).
  { unfold rot_submatrix.
    rewrite decide_False by (by intros ?).
    rewrite decide_False by (by intros ?).
    rewrite Hfind.
    rewrite decide_False by (revert Hinc; Z.div_mod_to_equations; lia).
    rewrite decide_True by (revert Hinc; Z.div_mod_to_equations; lia).
    done. }
  split; [done |]. rewrite Hwb. unfold write_back.
  by destruct (setitem_slices σ big_mat first (rotate_180 small_mat)).
Qed.

(** With [turns = -6] the notebook's array is returned with the half-turned
    block [[9,8],[6,5]] at its first placement. *)
Lemma rot_submatrix_half_turn_witness :
  (rot_submatrix Legacy ref_store ref_big ref_small (-6)).1
    = Ok (RArray ref_big)
  ∧ ravel (rot_submatrix Legacy ref_store ref_big ref_small (-6)).2 ref_big
    = [5;2;5;0; 4;9;8;0; 7;6;5;0;  0;0;0;0; 1;5;6;0; 1;8;9;5].
Proof.
  destruct (rot_submatrix_half_turn Legacy ref_store ref_big ref_small (-6)
    [[0; 1; 1]; [1; 1; 1]]%nat [(0, 1); (1, 3); (1, 3)]%nat
    [[(1, 2); (1, 3); (1, 3)]%nat]) as [-> _];
    [reflexivity | reflexivity | reflexivity | vm_compute; reflexivity |].
  vm_compute. split; reflexivity.
Defined.

(** ** Algebra of the rotation helpers *)

(** [np.flip] in closed form: every axis is reversed on its own, and the
    view starts at the far corner. *)
Lemma foldl_flip_axis (b : nat) (suf : list axis) :
  ∀ (pre : list axis) (off : Z),
    foldl flip_axis (NdArray b off (pre ++ suf))
          (seq (length pre) (length suf))
    = NdArray b (off + foldr Z.add 0 ((λ ax, (flip_one ax).1) <$> suf))
              (pre ++ ((λ ax, (flip_one ax).2) <$> suf)).
Proof.
  induction suf as [| ax suf IH]; intros pre off; simpl.
  - do 2 f_equal. lia.
  - unfold flip_axis at 2. simpl.
    rewrite list_lookup_middle by done.
    destruct (flip_one ax) as [d ax'] eqn:Hflip. simpl.
    rewrite insert_app_r_alt by lia. rewrite Nat.sub_diag. simpl.
    rewrite (cons_middle ax' pre suf), app_assoc.
    replace (S (length pre)) with (length (pre ++ [ax']))
      by (rewrite length_app; simpl; lia).
    rewrite IH, <- app_assoc. simpl. f_equal. symmetry. apply Z.add_assoc.
Qed.

Lemma np_flip_closed (m : ndarray) :
  np_flip m
    = NdArray (nd_base m)
        (nd_offset m + foldr Z.add 0 ((λ ax, (flip_one ax).1) <$> nd_axes m))
        ((λ ax, (flip_one ax).2) <$> nd_axes m).
Proof.
  destruct m as [b off axs]. unfold np_flip, ndim. simpl.
  apply (foldl_flip_axis b axs [] off).
Qed.

Lemma flip_one_twice (ax : axis) :
  (flip_one (flip_one ax).2).2 = ax
  ∧ (flip_one (flip_one ax).2).1 = - (flip_one ax).1.
Proof.
  destruct ax as [n s]. unfold flip_one.
  destruct (decide (n = 0%nat)) as [Hn | Hn]; simpl.
  - by rewrite decide_True.
  - rewrite decide_False by done. simpl. rewrite Z.opp_involutive.
    split; [done | ring].
Qed.

Lemma flip_twice_axes (axs : list axis) :
  (λ ax, (flip_one ax).2) <$> ((λ ax, (flip_one ax).2) <$> axs) = axs.
Proof.
  induction axs as [| ax axs IH]; [done |].
  rewrite !fmap_cons, IH. by destruct (flip_one_twice ax) as [-> _].
Qed.

Lemma flip_twice_offsets (axs : list axis) :
  foldr Z.add 0
    ((λ ax, (flip_one ax).1) <$> ((λ ax, (flip_one ax).2) <$> axs))
  = - foldr Z.add 0 ((λ ax, (flip_one ax).1) <$> axs).
Proof.
  induction axs as [| ax axs IH]; [done |].
  rewrite !fmap_cons. cbn [foldr]. rewrite IH.
  destruct (flip_one_twice ax) as [_ ->]. lia.
Qed.

Lemma np_flip_involutive (m : ndarray) : np_flip (np_flip m) = m.
Proof.
  rewrite (np_flip_closed (np_flip m)), np_flip_closed.
  destruct m as [b off axs]. cbn [nd_base nd_offset nd_axes].
  rewrite flip_twice_axes, flip_twice_offsets. f_equal. lia.
Qed.


(** X6. On a 2-D array the clockwise quarter turn of the counter-clockwise
    quarter turn is the array itself (the converse order of the two
    helpers). *)
Theorem rotate_sqcw_rotate_sqcc (m : ndarray) :
  ndim m = 2%nat →
  ∃ cc, rotate_sqcc m = Ok cc ∧ rotate_sqcw cc = Ok m.
Proof.
  intros Hdim. destruct m as [b off axs]. unfold ndim in Hdim. simpl in Hdim.
  destruct axs as [| [n0 s0] [| [n1 s1] [| ? ?]]]; try done.
  unfold rotate_sqcc, rotate_sqcw, np_fliplr, np_flipud, flip_axis, flip_one.
  simpl. eexists. split; [done |]. simpl.
  destruct (decide (n1 = 0%nat)) as [Hn1 | Hn1]; simpl.
  - rewrite decide_True by done. unfold transpose. simpl.
    do 2 f_equal. lia.
  - rewrite decide_False by done. unfold transpose. simpl.
    rewrite Z.opp_involutive. do 2 f_equal. ring.
Qed.

Lemma rotate_sqcw_rotate_sqcc_witness :
  ∃ cc, rotate_sqcc ref_small = Ok cc ∧ rotate_sqcw cc = Ok ref_small.
Proof. apply (rotate_sqcw_rotate_sqcc ref_small). reflexivity. Defined.

Lemma quarter_twice_view (m : ndarray) :
  ndim m = 2%nat →
  (rotate_sqcw m ≫= rotate_sqcw) = Ok (np_flip m)
  ∧ (rotate_sqcc m ≫= rotate_sqcc) = Ok (np_flip m).
Proof.
  intros Hdim. destruct m as [b off axs]. unfold ndim in Hdim. simpl in Hdim.
  destruct axs as [| [n0 s0] [| [n1 s1] [| ? ?]]]; try done.
  unfold rotate_sqcc, rotate_sqcw, np_flip, np_fliplr, np_flipud,
    flip_axis, flip_one, transpose.
  simpl.
  destruct (decide (n0 = 0%nat)) as [Hn0 | Hn0],
           (decide (n1 = 0%nat)) as [Hn1 | Hn1]; simpl;
    repeat (rewrite ?decide_True by done; rewrite ?decide_False by done;
            simpl);
    split; apply (f_equal Ok); f_equal; try reflexivity; ring.
Qed.

(** X7. Two quarter turns in the same direction are the half turn: on a
    2-D array [rotate_sqcw] twice and [rotate_sqcc] twice both give the
    view that [rotate_180] gives. *)
Theorem rotate_quarter_twice (m : ndarray) :
  ndim m = 2%nat →
  (rotate_sqcw m ≫= rotate_sqcw) = Ok (rotate_180 m)
  ∧ (rotate_sqcc m ≫= rotate_sqcc) = Ok (rotate_180 m).
Proof. apply quarter_twice_view. Qed.

Lemma rotate_quarter_twice_witness :
  (rotate_sqcw ref_small ≫= rotate_sqcw) = Ok (rotate_180 ref_small)
  ∧ (rotate_sqcc ref_small ≫= rotate_sqcc) = Ok (rotate_180 ref_small).
Proof. apply (rotate_quarter_twice ref_small). reflexivity. Defined.

(** X8. Four clockwise quarter turns of a 2-D array give back the array. *)
Theorem rotate_sqcw_four_times (m : ndarray) :
  ndim m = 2%nat →
  (((rotate_sqcw m ≫= rotate_sqcw) ≫= rotate_sqcw) ≫= rotate_sqcw) = Ok m.
Proof.
  intros Hdim.
  assert (Hdim180 : ndim (np_flip m) = 2%nat).
  { rewrite np_flip_closed. unfold ndim in *. simpl. by rewrite length_fmap. }
  destruct (quarter_twice_view m Hdim) as [Hcw _].
  destruct (quarter_twice_view (np_flip m) Hdim180) as [Hcw2 _].
  rewrite np_flip_involutive in Hcw2.
  destruct (rotate_sqcw m) as [m1 |] eqn:H1; simpl in *; [| done].
  rewrite Hcw. simpl. exact Hcw2.
Qed.

Lemma rotate_sqcw_four_times_witness :
  (((rotate_sqcw ref_small ≫= rotate_sqcw) ≫= rotate_sqcw) ≫= rotate_sqcw)
    = Ok ref_small.
Proof. apply (rotate_sqcw_four_times ref_small). reflexivity. Defined.

(** ** What the rotation helpers do to the elements *)

(** X9. [rotate_sqcw] of an [n0] x [n1] array returns an [n1] x [n0]
    array in which the element that was at [i, j] is at [j, n0 - 1 - i]. *)
Theorem rotate_sqcw_elements (σ : gmap nat (list Z)) (m : ndarray)
    (n0 n1 i j : nat) :
  shape m = [n0; n1] → (i < n0)%nat → (j < n1)%nat →
  ∃ cw, rotate_sqcw m = Ok cw ∧ shape cw = [n1; n0]
        ∧ read σ cw [j; (n0 - 1 - i)%nat] = read σ m [i; j].
Proof.
  intros Hsh Hi Hj. destruct m as [b off axs]. unfold shape in Hsh.
  simpl in Hsh.
  destruct axs as [| [n0' s0] [| [n1' s1] [| ? ?]]]; simplify_eq/=.
  by apply rotate_sqcw_read.
Qed.

Lemma rotate_sqcw_elements_witness :
  ∃ cw, rotate_sqcw ref_small = Ok cw ∧ shape cw = [2; 2]%nat
        ∧ read ref_store cw [1; 1]%nat = read ref_store ref_small [0; 1]%nat.
Proof.
  apply (rotate_sqcw_elements ref_store ref_small 2 2 0 1);
    [reflexivity | lia | lia].
Defined.

(** X10. [rotate_sqcc] of an [n0] x [n1] array returns an [n1] x [n0]
    array in which the element that was at [i, j] is at [n1 - 1 - j, i]. *)
Theorem rotate_sqcc_elements (σ : gmap nat (list Z)) (m : ndarray)
    (n0 n1 i j : nat) :
  shape m = [n0; n1] → (i < n0)%nat → (j < n1)%nat →
  ∃ cc, rotate_sqcc m = Ok cc ∧ shape cc = [n1; n0]
        ∧ read σ cc [(n1 - 1 - j)%nat; i] = read σ m [i; j].
Proof.
  intros Hsh Hi Hj. destruct m as [b off axs]. unfold shape in Hsh.
  simpl in Hsh.
  destruct axs as [| [n0' s0] [| [n1' s1] [| ? ?]]]; simplify_eq/=.
  by apply rotate_sqcc_read.
Qed.

Lemma rotate_sqcc_elements_witness :
  ∃ cc, rotate_sqcc ref_small = Ok cc ∧ shape cc = [2; 2]%nat
        ∧ read ref_store cc [0; 0]%nat = read ref_store ref_small [0; 1]%nat.
Proof.
  apply (rotate_sqcc_elements ref_store ref_small 2 2 0 1);
    [reflexivity | lia | lia].
Defined.

(** X11. [rotate_180] of an [n0] x [n1] array keeps the shape and moves the
    element at [i, j] to [n0 - 1 - i, n1 - 1 - j]. *)
Theorem rotate_180_elements (σ : gmap nat (list Z)) (m : ndarray)
    (n0 n1 i j : nat) :
  shape m = [n0; n1] → (i < n0)%nat → (j < n1)%nat →
  shape (rotate_180 m) = [n0; n1]
  ∧ read σ (rotate_180 m) [(n0 - 1 - i)%nat; (n1 - 1 - j)%nat]
      = read σ m [i; j].
Proof.
  intros Hsh Hi Hj. destruct m as [b off axs]. unfold shape in Hsh.
  simpl in Hsh.
  destruct axs as [| [n0' s0] [| [n1' s1] [| ? ?]]]; simplify_eq/=.
  by apply rotate_180_read.
Qed.

Lemma rotate_180_elements_witness :
  shape (rotate_180 ref_small) = [2; 2]%nat
  ∧ read ref_store (rotate_180 ref_small) [1; 0]%nat
      = read ref_store ref_small [0; 1]%nat.
Proof.
  apply (rotate_180_elements ref_store ref_small 2 2 0 1);
    [reflexivity | lia | lia].
Defined.

(** ** The result lists of [find_submatrix] *)

Lemma corner_read (σ : gmap nat (list Z)) (small_mat row corner : ndarray) :
  ndim small_mat = 2%nat →
  getitem_int small_mat 0 = Ok row → getitem_int row 0 = Ok corner →
  read σ corner [] = read σ small_mat [0; 0]%nat.
Proof.
  destruct small_mat as [b off axs]. unfold ndim. simpl. intros Hdim.
  destruct axs as [| [n0 s0] [| [n1 s1] [| ? ?]]]; try done.
  unfold getitem_int. simpl. case_decide; [| done]. intros [= <-]. simpl.
  case_decide; [| done]. intros [= <-]. done.
Qed.

Lemma np_equal_passes (mode : eq_mode) (σ : gmap nat (list Z))
    (big_mat small_mat : ndarray) (c : list nat) (eq : cmp) :
  np_equal mode σ (getitem_slices big_mat (make_nslice c (shape small_mat)))
           small_mat = Ok eq →
  np_all eq = passes σ big_mat small_mat c.
Proof.
  unfold np_equal, passes.
  destruct (broadcast_arrays _ _) as [[a' b'] |].
  - by intros [= <-].
  - destruct mode; [by intros [= <-] | done].
Qed.

Lemma scan_candidates_filter (mode : eq_mode) (σ : gmap nat (list Z))
    (big_mat small_mat : ndarray) (candidates : list (list nat)) :
  ∀ acc r,
    scan_candidates mode σ big_mat small_mat (shape small_mat) candidates acc
      = Ok r →
    r.1 = acc.1 ++ filter (λ c, passes σ big_mat small_mat c = true) candidates
    ∧ r.2 = acc.2 ++ ((λ c, make_nslice c (shape small_mat)) <$>
              filter (λ c, passes σ big_mat small_mat c = true) candidates).
Proof.
  induction candidates as [| c rest IH]; intros acc r; simpl.
  - intros [= <-]. by rewrite !app_nil_r.
  - rewrite filter_cons.
    destruct (np_equal _ _ _ _) as [eq |] eqn:Heq; simpl; [| done].
    rewrite (np_equal_passes _ _ _ _ _ _ Heq).
    destruct (passes σ big_mat small_mat c) eqn:Hp; intros Hscan;
      destruct (IH _ _ Hscan) as [-> ->]; simpl.
    + rewrite ?decide_True by done. by rewrite <- !app_assoc.
    + by rewrite ?decide_False by done.
Qed.

Lemma find_submatrix_filter (mode : eq_mode) (σ : gmap nat (list Z))
    (big_mat small_mat : ndarray) (locs : list (list nat))
    (nslices : list (list slice)) :
  find_submatrix mode σ big_mat small_mat = Ok (Found locs nslices) →
  locs = filter (λ c, passes σ big_mat small_mat c = true)
           (filter (λ idx, read σ big_mat idx
                             = read σ small_mat [0; 0]%nat)
                   (indices (shape big_mat)))
  ∧ nslices = (λ c, make_nslice c (shape small_mat)) <$> locs.
Proof.
  unfold find_submatrix. case_decide as Hguard; [done |].
  destruct (getitem_int small_mat 0) as [row |] eqn:Hrow; simpl; [| done].
  destruct (getitem_int row 0) as [corner |] eqn:Hcorner; simpl; [| done].
  destruct (scan_candidates _ _ _ _ _ _ _) as [r |] eqn:Hscan; simpl; [| done].
  intros [= <- <-].
  destruct (scan_candidates_filter _ _ _ _ _ _ _ Hscan) as [-> ->]. simpl.
  unfold argwhere_eq.
  rewrite (corner_read σ small_mat row corner) by (done || lia). done.
Qed.

(** X12. The two lists [find_submatrix] returns: [location_list] holds,
    in C order and with no deduplication, exactly the coordinates whose
    element equals [small_mat[0][0]] and whose region passes the
    comparison; [nslice_list] holds the slice list of each of them, in the
    same order. *)
Theorem find_submatrix_lists (mode : eq_mode) (σ : gmap nat (list Z))
    (big_mat small_mat : ndarray) (locs : list (list nat))
    (nslices : list (list slice)) :
  find_submatrix mode σ big_mat small_mat = Ok (Found locs nslices) →
  locs = filter (λ c, passes σ big_mat small_mat c = true)
           (filter (λ idx, read σ big_mat idx
                             = read σ small_mat [0; 0]%nat)
                   (indices (shape big_mat)))
  ∧ nslices = (λ c, make_nslice c (shape small_mat)) <$> locs.
Proof. apply find_submatrix_filter. Qed.

Lemma find_submatrix_lists_witness :
  [[0; 1; 1]; [1; 1; 1]]%nat
    = filter (λ c, passes ref_store ref_big ref_small c = true)
        (filter (λ idx, read ref_store ref_big idx
                          = read ref_store ref_small [0; 0]%nat)
                (indices (shape ref_big))).
Proof.
  apply (find_submatrix_lists Legacy ref_store ref_big ref_small
           [[0; 1; 1]; [1; 1; 1]]%nat
           [[(0, 1); (1, 3); (1, 3)]; [(1, 2); (1, 3); (1, 3)]]%nat).
  vm_compute. reflexivity.
Defined.

(** ** When [find_submatrix] raises *)

Lemma scan_candidates_raise (mode : eq_mode) (σ : gmap nat (list Z))
    (big_mat small_mat : ndarray) (size : list nat)
    (candidates : list (list nat)) :
  ∀ acc e,
    scan_candidates mode σ big_mat small_mat size candidates acc = Raise e →
    mode = Strict ∧ e = ValueError.
Proof.
  induction candidates as [| c rest IH]; intros acc e; simpl; [done |].
  unfold np_equal at 1.
  destruct (broadcast_arrays _ _) as [[a' b'] |]; simpl.
  - destruct (forallb id _); apply IH.
  - destruct mode; simpl; [apply IH |]. by intros [= <-].
Qed.

(** X13. Past its dimensionality guard, [find_submatrix] raises
    [IndexError] exactly when the pattern has no elements: the error comes
    from [small_mat[0][0]] and from nowhere else. *)
Theorem find_submatrix_index_error (mode : eq_mode) (σ : gmap nat (list Z))
    (big_mat small_mat : ndarray) :
  ndim small_mat = 2%nat → (2 ≤ ndim big_mat)%nat →
  find_submatrix mode σ big_mat small_mat = Raise IndexError
  ↔ shape small_mat !!! 0%nat = 0%nat ∨ shape small_mat !!! 1%nat = 0%nat.
Proof.
  intros Hdim Hbig. unfold find_submatrix.
  rewrite decide_False by lia.
  destruct small_mat as [b off axs]. unfold ndim in Hdim. simpl in Hdim.
  destruct axs as [| [n0 s0] [| [n1 s1] [| ? ?]]]; try done.
  unfold getitem_int, shape. simpl.
  destruct (decide (0 < n0)%nat) as [H0 | H0]; simpl; [| split; [lia | done]].
  destruct (decide (0 < n1)%nat) as [H1 | H1]; simpl; [| split; [lia | done]].
  destruct (scan_candidates _ _ _ _ _ _ _) as [r | e] eqn:Hscan; simpl.
  - split; [done | lia].
  - apply scan_candidates_raise in Hscan as [_ ->]. split; [done | lia].
Qed.

Lemma find_submatrix_index_error_witness :
  find_submatrix Strict empty_store miss_big empty_small = Raise IndexError.
Proof.
  apply (find_submatrix_index_error Strict empty_store miss_big empty_small);
    [reflexivity | vm_compute; lia | left; reflexivity].
Defined.

(** X14. With the older comparison (scalar [False] on shapes that cannot be
    broadcast) [find_submatrix] never raises on a non-empty 2-D pattern and
    an array of at least two dimensions: it returns the pair of lists of
    X12. *)
Theorem find_submatrix_legacy_total (σ : gmap nat (list Z))
    (big_mat small_mat : ndarray) :
  ndim small_mat = 2%nat → (2 ≤ ndim big_mat)%nat →
  (0 < shape small_mat !!! 0%nat)%nat → (0 < shape small_mat !!! 1%nat)%nat →
  ∃ locs,
    find_submatrix Legacy σ big_mat small_mat
      = Ok (Found locs ((λ c, make_nslice c (shape small_mat)) <$> locs)).
Proof.
  intros Hdim Hbig H0 H1. unfold find_submatrix.
  rewrite decide_False by lia.
  destruct (getitem_int small_mat 0) as [row |] eqn:Hrow; simpl.
  2: { exfalso. destruct small_mat as [b off axs].
       unfold ndim in Hdim. simpl in Hdim.
       destruct axs as [| [n0 s0] [| [n1 s1] [| ? ?]]]; try done.
       revert Hrow. unfold getitem_int. simpl. by rewrite decide_True. }
  destruct (getitem_int row 0) as [corner |] eqn:Hcorner; simpl.
  2: { exfalso. destruct small_mat as [b off axs].
       unfold ndim in Hdim. simpl in Hdim.
       destruct axs as [| [n0 s0] [| [n1 s1] [| ? ?]]]; try done.
       revert Hrow. unfold getitem_int at 1. simpl.
       rewrite decide_True by done. intros [= <-].
       revert Hcorner. unfold getitem_int. simpl. by rewrite decide_True. }
  destruct (scan_candidates _ _ _ _ _ _ _) as [r | e] eqn:Hscan; simpl.
  - exists r.1. destruct (scan_candidates_filter _ _ _ _ _ _ _ Hscan)
      as [Hr1 Hr2].
    simpl in Hr1, Hr2. by rewrite Hr2, <- Hr1.
  - by apply scan_candidates_raise in Hscan as [? _].
Qed.

Lemma find_submatrix_legacy_total_witness :
  ∃ locs,
    find_submatrix Legacy tall_store tall_big tall_small
      = Ok (Found locs ((λ c, make_nslice c (shape tall_small)) <$> locs)).
Proof.
  apply (find_submatrix_legacy_total tall_store tall_big tall_small);
    vm_compute; (reflexivity || lia).
Defined.

(** ** Regions inside the bounds: the comparison is an elementwise test *)

Lemma indices_Forall2 (sh : list nat) :
  ∀ idx, idx ∈ indices sh ↔ Forall2 (λ i n, (i < n)%nat) idx sh.
Proof.
  induction sh as [| n sh IH]; intros idx; simpl.
  - rewrite list_elem_of_singleton. split.
    + by intros ->.
    + by intros ->%Forall2_nil_inv_r.
  - rewrite list_elem_of_bind. split.
    + intros (i & Hidx & Hi). apply list_elem_of_fmap in Hidx as (r & -> & Hr).
      apply elem_of_seq in Hi. constructor; [lia | by apply IH].
    + intros (i & r & Hi & Hr & ->)%Forall2_cons_inv_r.
      exists i. split.
      * apply list_elem_of_fmap. exists r. split; [done | by apply IH].
      * apply elem_of_seq. lia.
Qed.

Lemma addr_from_shift (sts : list Z) :
  ∀ (idx : list nat) (off : Z),
    addr_from off sts idx = off + addr_from 0 sts idx.
Proof.
  induction sts as [| s sts IH]; intros [| i idx] off; simpl; try lia.
  rewrite (IH idx (off + Z.of_nat i * s)), (IH idx (0 + Z.of_nat i * s)). lia.
Qed.

Lemma addr_from_app (sts1 sts2 : list Z) :
  ∀ (idx1 idx2 : list nat) (off : Z),
    length idx1 = length sts1 →
    addr_from off (sts1 ++ sts2) (idx1 ++ idx2)
      = addr_from (addr_from off sts1 idx1) sts2 idx2.
Proof.
  induction sts1 as [| s sts1 IH]; intros [| i idx1] idx2 off Hlen;
    simplify_eq/=; [done |].
  by apply IH.
Qed.

Lemma addr_from_zeros (sts : list Z) (k : nat) (off : Z) :
  addr_from off sts (replicate k 0%nat) = off.
Proof.
  revert sts off. induction k as [| k IH]; intros [| s sts] off; simpl;
    try done.
  rewrite IH. lia.
Qed.

Lemma forallb_zip_fmap {A : Type} (f g : A → Z) (l : list A) :
  forallb id (zip_with Z.eqb (f <$> l) (g <$> l)) = true
  ↔ ∀ x, x ∈ l → f x = g x.
Proof.
  induction l as [| a l IH]; simpl.
  - split; [| done]. intros _ x Hx. by apply elem_of_nil in Hx.
  - rewrite andb_true_iff, IH. unfold id. rewrite Z.eqb_eq. split.
    + intros [Ha Hl] x [-> | Hx]%elem_of_cons; auto.
    + intros H. split; [apply H; left | intros x Hx; apply H; by right].
Qed.

Lemma make_nslice_snoc2 (pre : list nat) (y x r c : nat) :
  make_nslice (pre ++ [y; x]) [r; c]
    = ((λ l, (l, l + 1)%nat) <$> pre) ++ [(y, (y + r)%nat); (x, (x + c)%nat)].
Proof.
  unfold make_nslice, neg_index. rewrite length_app. simpl.
  replace (length pre + 2 - 2)%nat with (length pre) by lia.
  replace (length pre + 2 - 1)%nat with (length pre + 1)%nat by lia.
  rewrite take_app_length.
  rewrite !lookup_total_app_r by lia.
  replace (length pre - length pre)%nat with 0%nat by lia.
  replace (length pre + 1 - length pre)%nat with 1%nat by lia.
  done.
Qed.

Lemma corner_shift_snoc2 (pre : list nat) (y x i j : nat) :
  corner_shift (pre ++ [y; x]) i j = pre ++ [(y + i)%nat; (x + j)%nat].
Proof.
  unfold corner_shift, neg_index. rewrite length_app. simpl.
  replace (length pre + 2 - 2)%nat with (length pre) by lia.
  replace (length pre + 2 - 1)%nat with (length pre + 1)%nat by lia.
  rewrite take_app_length.
  rewrite !lookup_total_app_r by lia.
  replace (length pre - length pre)%nat with 0%nat by lia.
  replace (length pre + 1 - length pre)%nat with 1%nat by lia.
  done.
Qed.

(** The slices of a candidate applied to the leading axes: extent 1 each. *)
Lemma slice_axes_leading (rest : list axis) (srest : list slice) :
  ∀ (apre : list axis) (pre : list nat),
    Forall2 (λ l n, (l < n)%nat) pre apre.*1 →
    slice_axes (apre ++ rest) (((λ l, (l, l + 1)%nat) <$> pre) ++ srest)
      = ((addr_from 0 apre.*2 pre) + (slice_axes rest srest).1,
         ((λ ax : axis, (1%nat, ax.2)) <$> apre) ++ (slice_axes rest srest).2).
Proof.
  unfold slice, axis in *.
  induction apre as [| [n s] apre IH]; intros pre Hpre.
  - apply Forall2_nil_inv_r in Hpre as ->. simpl.
    by destruct (slice_axes rest srest).
  - rewrite fmap_cons in Hpre.
    apply Forall2_cons_inv_r in Hpre as (l & pre' & Hl & Hpre & ->).
    rewrite !fmap_cons, <- !app_comm_cons. cbn [slice_axes addr_from].
    unfold slice_axis. cbn [fst snd] in *.
    replace (l `min` n)%nat with l by lia.
    replace ((l + 1) `min` n)%nat with (l + 1)%nat by lia.
    rewrite decide_False by lia.
    replace (l + 1 - l)%nat with 1%nat by lia.
    cbv beta iota. rewrite (IH pre' Hpre).
    f_equal. rewrite (addr_from_shift _ _ (0 + Z.of_nat l * s)). lia.
Qed.

Lemma slice_axes_last2 (dy dx y x r c : nat) (sy sx : Z) :
  (0 < r)%nat → (0 < c)%nat → (y + r ≤ dy)%nat → (x + c ≤ dx)%nat →
  slice_axes [(dy, sy); (dx, sx)] [(y, (y + r)%nat); (x, (x + c)%nat)]
    = (Z.of_nat y * sy + (Z.of_nat x * sx + 0), [(r, sy); (c, sx)]).
Proof.
  intros Hr Hc Hy Hx. simpl. unfold slice_axis. simpl.
  replace (y `min` dy)%nat with y by lia.
  replace ((y + r) `min` dy)%nat with (y + r)%nat by lia.
  replace (x `min` dx)%nat with x by lia.
  replace ((x + c) `min` dx)%nat with (x + c)%nat by lia.
  rewrite !decide_False by lia.
  replace (y + r - y)%nat with r by lia.
  replace (x + c - x)%nat with c by lia.
  done.
Qed.

(** Stretching a view to its own shape changes nothing. *)
Lemma stretch_rev_self (axs : list axis) : stretch_rev axs axs.*1 = Some axs.
Proof.
  induction axs as [| [n s] axs IH]; [done |].
  rewrite fmap_cons. cbn [stretch_rev fst]. rewrite IH. simpl.
  by rewrite decide_True.
Qed.

Lemma broadcast_to_self (a : ndarray) : broadcast_to a (shape a) = Some a.
Proof.
  destruct a as [b off axs]. unfold broadcast_to, shape. simpl.
  rewrite <- fmap_reverse, stretch_rev_self. simpl.
  by rewrite reverse_involutive.
Qed.

Lemma stretch_rev_nil (k : nat) :
  stretch_rev [] (replicate k 1%nat) = Some (replicate k (1%nat, 0)).
Proof. induction k as [| k IH]; simpl; [done |]. by rewrite IH. Qed.

Lemma bcast_rev_nil_r (s : list nat) : bcast_rev s [] = Some s.
Proof. by destruct s. Qed.

(** A region of shape (1, ..., 1, r, c) against an r x c pattern: the
    region is kept and the pattern gets leading axes of stride 0. *)
Lemma broadcast_arrays_region (b bs : nat) (off offs : Z) (u : list axis)
    (r c : nat) (sy sx s0 s1 : Z) :
  u.*1 = replicate (length u) 1%nat →
  broadcast_arrays (NdArray b off (u ++ [(r, sy); (c, sx)]))
                   (NdArray bs offs [(r, s0); (c, s1)])
    = Some (NdArray b off (u ++ [(r, sy); (c, sx)]),
            NdArray bs offs
              (replicate (length u) (1%nat, 0) ++ [(r, s0); (c, s1)])).
Proof.
  intros Hu. unfold broadcast_arrays, broadcast_shapes, shape. simpl.
  rewrite fmap_app, Hu. simpl.
  rewrite reverse_app, reverse_replicate.
  change (reverse [r; c]) with [c; r]. simpl.
  unfold bcast_dim. rewrite !decide_True by done. simpl.
  rewrite bcast_rev_nil_r. simpl.
  change (c :: r :: replicate (length u) 1%nat)
    with ([c; r] ++ replicate (length u) 1%nat).
  rewrite reverse_app, reverse_replicate.
  change (reverse [c; r]) with [r; c].
  pose proof (broadcast_to_self (NdArray b off (u ++ [(r, sy); (c, sx)])))
    as Hself.
  unfold shape in Hself. simpl in Hself. rewrite fmap_app, Hu in Hself.
  simpl in Hself. rewrite Hself. simpl.
  unfold broadcast_to. simpl.
  rewrite reverse_app, reverse_replicate.
  change (reverse [r; c]) with [c; r].
  change (reverse [(r, s0); (c, s1)]) with [(c, s1); (r, s0)]. simpl.
  rewrite stretch_rev_nil. simpl.
  repeat (rewrite decide_True by done; simpl).
  do 3 f_equal.
  change ((c, s1) :: (r, s0) :: replicate (length u) (1%nat, 0))
    with ([(c, s1); (r, s0)] ++ replicate (length u) (1%nat, 0)).
  by rewrite reverse_app, reverse_replicate.
Qed.

Lemma Forall2_lt_ones (k : nat) (l : list nat) :
  Forall2 (λ i n, (i < n)%nat) l (replicate k 1%nat) ↔ l = replicate k 0%nat.
Proof.
  revert l. induction k as [| k IH]; intros l; simpl.
  - split; [by intros ->%Forall2_nil_inv_r | by intros ->].
  - split.
    + intros (i & l' & Hi & Hl & ->)%Forall2_cons_inv_r.
      apply IH in Hl as ->. f_equal. lia.
    + intros ->. constructor; [lia | by apply IH].
Qed.

Lemma region_indices (k r c : nat) (idx : list nat) :
  idx ∈ indices (replicate k 1%nat ++ [r; c])
  ↔ ∃ i j, (i < r)%nat ∧ (j < c)%nat ∧ idx = replicate k 0%nat ++ [i; j].
Proof.
  rewrite indices_Forall2. split.
  - intros (l1 & l2 & H1 & H2 & ->)%Forall2_app_inv_r.
    apply Forall2_lt_ones in H1 as ->.
    apply Forall2_cons_inv_r in H2 as (i & l2' & Hi & H2 & ->).
    apply Forall2_cons_inv_r in H2 as (j & l2'' & Hj & H2 & ->).
    apply Forall2_nil_inv_r in H2 as ->. by exists i, j.
  - intros (i & j & Hi & Hj & ->). apply Forall2_app.
    + by apply Forall2_lt_ones.
    + by repeat constructor.
Qed.

(** For a region inside the bounds the loop's test says exactly that every
    element of the region equals the pattern's element at the same place. *)
Lemma passes_in_bounds (σ : gmap nat (list Z)) (b bs : nat) (off offs : Z)
    (apre : list axis) (pre : list nat) (dy dx y x r c : nat)
    (sy sx s0 s1 : Z) :
  Forall2 (λ l n, (l < n)%nat) pre apre.*1 →
  (0 < r)%nat → (0 < c)%nat → (y + r ≤ dy)%nat → (x + c ≤ dx)%nat →
  passes σ (NdArray b off (apre ++ [(dy, sy); (dx, sx)]))
           (NdArray bs offs [(r, s0); (c, s1)]) (pre ++ [y; x]) = true
  ↔ ∀ i j, (i < r)%nat → (j < c)%nat →
      read σ (NdArray b off (apre ++ [(dy, sy); (dx, sx)]))
           (pre ++ [(y + i)%nat; (x + j)%nat])
      = read σ (NdArray bs offs [(r, s0); (c, s1)]) [i; j].
Proof.
  intros Hpre Hr Hc Hy Hx.
  assert (Hlen : length pre = length apre.*2).
  { apply Forall2_length in Hpre. by rewrite !length_fmap in *. }
  unfold passes.
  change (shape (NdArray bs offs [(r, s0); (c, s1)])) with [r; c].
  rewrite make_nslice_snoc2. unfold getitem_slices. cbn [nd_axes nd_base nd_offset].
  rewrite (slice_axes_leading _ _ apre pre Hpre).
  rewrite (slice_axes_last2 dy dx y x r c sy sx) by done. cbn [fst snd].
  set (u := (λ ax : axis, (1%nat, ax.2)) <$> apre).
  assert (Hu1 : u.*1 = replicate (length u) 1%nat).
  { unfold u. rewrite length_fmap. clear. induction apre as [| ax apre IH];
      [done |]. rewrite !fmap_cons. simpl. by rewrite IH. }
  assert (Hu2 : u.*2 = apre.*2).
  { unfold u. clear. induction apre as [| ax apre IH]; [done |].
    rewrite !fmap_cons. simpl. by rewrite IH. }
  rewrite (broadcast_arrays_region b bs _ offs u r c sy sx s0 s1 Hu1).
  unfold ravel, shape. cbn [nd_axes].
  rewrite !fmap_app, Hu1, fmap_replicate. cbn [fmap list_fmap fst].
  rewrite forallb_zip_fmap.
  assert (Hread : ∀ i j,
    read σ (NdArray b
              (off + (addr_from 0 apre.*2 pre
                      + (Z.of_nat y * sy + (Z.of_nat x * sx + 0))))
              (u ++ [(r, sy); (c, sx)]))
         (replicate (length u) 0%nat ++ [i; j])
    = read σ (NdArray b off (apre ++ [(dy, sy); (dx, sx)]))
           (pre ++ [(y + i)%nat; (x + j)%nat])
    ∧ read σ (NdArray bs offs
                (replicate (length u) (1%nat, 0) ++ [(r, s0); (c, s1)]))
           (replicate (length u) 0%nat ++ [i; j])
      = read σ (NdArray bs offs [(r, s0); (c, s1)]) [i; j]).
  { intros i j. unfold read, addr, buffer_of, strides.
    cbn [nd_axes nd_base nd_offset]. rewrite !fmap_app, Hu2, fmap_replicate.
    split; f_equal.
    - rewrite (addr_from_app apre.*2 _ (replicate (length u) 0%nat))
        by (rewrite length_replicate; unfold u; by rewrite !length_fmap).
      rewrite (addr_from_app apre.*2 _ pre _ off Hlen).
      rewrite addr_from_zeros. rewrite (addr_from_shift _ pre off).
      simpl. lia.
    - rewrite addr_from_app by (by rewrite !length_replicate).
      by rewrite addr_from_zeros. }
  split.
  - intros H i j Hi Hj. destruct (Hread i j) as [<- <-].
    apply H, region_indices. by exists i, j.
  - intros H idx (i & j & Hi & Hj & ->)%region_indices.
    destruct (Hread i j) as [E1 E2].
    etrans; [exact E1 |]. etrans; [by apply H |]. symmetry. exact E2.
Qed.

Lemma list_snoc2 {A : Type} (l : list A) :
  (2 ≤ length l)%nat → ∃ pre a b, l = pre ++ [a; b].
Proof.
  induction l as [| a0 l IH]; simpl; [lia |]. intros Hlen.
  destruct l as [| a1 [| a2 l]].
  - simpl in Hlen. lia.
  - by exists [], a0, a1.
  - destruct IH as (pre & a & b & ->); [simpl; lia |].
    by exists (a0 :: pre), a, b.
Qed.

Lemma getitem_region_shape (b : nat) (off : Z) (apre : list axis)
    (pre : list nat) (dy dx y x r c : nat) (sy sx : Z) :
  Forall2 (λ l n, (l < n)%nat) pre apre.*1 →
  (0 < r)%nat → (0 < c)%nat → (y + r ≤ dy)%nat → (x + c ≤ dx)%nat →
  shape (getitem_slices (NdArray b off (apre ++ [(dy, sy); (dx, sx)]))
                        (make_nslice (pre ++ [y; x]) [r; c]))
    = replicate (length apre) 1%nat ++ [r; c].
Proof.
  intros Hpre Hr Hc Hy Hx.
  rewrite make_nslice_snoc2. unfold getitem_slices.
  cbn [nd_axes nd_base nd_offset].
  rewrite (slice_axes_leading _ _ apre pre Hpre).
  rewrite (slice_axes_last2 dy dx y x r c sy sx) by done.
  unfold shape. cbn [fst snd nd_axes]. rewrite fmap_app. f_equal.
  clear. induction apre as [| ax apre IH]; [done |].
  rewrite !fmap_cons. simpl. by rewrite IH.
Qed.

(** The same, for any array, pattern and candidate coordinate. *)
Lemma passes_occurs (σ : gmap nat (list Z)) (big_mat small_mat : ndarray)
    (loc : list nat) :
  ndim small_mat = 2%nat → (2 ≤ ndim big_mat)%nat →
  (0 < shape small_mat !!! 0%nat)%nat → (0 < shape small_mat !!! 1%nat)%nat →
  loc ∈ indices (shape big_mat) →
  region_in_bounds big_mat (make_nslice loc (shape small_mat)) →
  (passes σ big_mat small_mat loc = true ↔ occurs_at σ big_mat small_mat loc)
  ∧ shape (getitem_slices big_mat (make_nslice loc (shape small_mat)))
      = replicate (ndim big_mat - 2) 1%nat ++ shape small_mat.
Proof.
  intros Hdim Hbig Hr Hc Hloc Hin. pose proof Hin as Hin0.
  destruct small_mat as [bs offs saxs]. unfold ndim in Hdim. simpl in Hdim.
  destruct saxs as [| [r s0] [| [c s1] [| ? ?]]]; try done.
  destruct big_mat as [b off axs]. unfold ndim in Hbig. simpl in Hbig.
  destruct (list_snoc2 axs Hbig) as (apre & [dy sy] & [dx sx] & ->).
  assert (Hr' : (0 < r)%nat) by exact Hr.
  assert (Hc' : (0 < c)%nat) by exact Hc.
  clear Hr Hc.
  unfold region_in_bounds in Hin. unfold shape in Hloc, Hin.
  cbn [nd_axes] in Hloc, Hin. rewrite fmap_app in Hloc, Hin.
  change ((λ l : list axis, l.*1) [(dy, sy); (dx, sx)]) with [dy; dx]
    in Hloc, Hin.
  apply indices_Forall2 in Hloc.
  apply Forall2_app_inv_r in Hloc as (pre & l2 & Hpre & H2 & ->).
  apply Forall2_cons_inv_r in H2 as (y & l2' & Hy & H2 & ->).
  apply Forall2_cons_inv_r in H2 as (x & l2'' & Hx & H2 & ->).
  apply Forall2_nil_inv_r in H2 as ->.
  assert (Hyr : (y + r ≤ dy)%nat ∧ (x + c ≤ dx)%nat).
  { change ([(r, s0); (c, s1)].*1) with [r; c] in Hin.
    rewrite make_nslice_snoc2 in Hin.
    apply Forall2_app_inv in Hin as [_ Hlast].
    - apply Forall2_cons_1 in Hlast as [Hyr Hlast].
      by apply Forall2_cons_1 in Hlast as [Hxc _].
    - apply Forall2_length in Hpre. by rewrite !length_fmap in *. }
  destruct Hyr as [Hyr Hxc].
  split.
  - etrans;
      [exact (passes_in_bounds σ b bs off offs apre pre dy dx y x r c
                sy sx s0 s1 Hpre Hr' Hc' Hyr Hxc) |].
    unfold occurs_at.
    change (neg_index (shape (NdArray bs offs [(r, s0); (c, s1)])) 2) with r.
    change (neg_index (shape (NdArray bs offs [(r, s0); (c, s1)])) 1) with c.
    split.
    + intros H. split; [exact Hin0 |]. intros i j Hi Hj.
      rewrite corner_shift_snoc2. by apply H.
    + intros [_ H] i j Hi Hj. rewrite <- corner_shift_snoc2. by apply H.
  - etrans; [by apply (getitem_region_shape b off apre pre dy dx y x r c) |].
    unfold ndim. cbn [nd_axes]. rewrite length_app. simpl.
    by replace (length apre + 2 - 2)%nat with (length apre) by lia.
Qed.

Lemma find_submatrix_found_inv (mode : eq_mode) (σ : gmap nat (list Z))
    (big_mat small_mat : ndarray) (locs : list (list nat))
    (nslices : list (list slice)) :
  find_submatrix mode σ big_mat small_mat = Ok (Found locs nslices) →
  ndim small_mat = 2%nat ∧ (2 ≤ ndim big_mat)%nat
  ∧ (0 < shape small_mat !!! 0%nat)%nat ∧ (0 < shape small_mat !!! 1%nat)%nat.
Proof.
  unfold find_submatrix. case_decide as Hguard; [done |].
  assert (Hdim : ndim small_mat = 2%nat) by lia.
  assert (Hbig : (2 ≤ ndim big_mat)%nat) by lia.
  destruct small_mat as [bs offs saxs]. unfold ndim in Hdim. simpl in Hdim.
  destruct saxs as [| [r s0] [| [c s1] [| ? ?]]]; try done.
  unfold getitem_int, shape. simpl.
  destruct (decide (0 < r)%nat); simpl; [| done].
  destruct (decide (0 < c)%nat); simpl; [| done].
  done.
Qed.

(** X15. For an array and a pattern of one integer dtype (the element
    model of this file: [==] is exact, nothing is promoted), a returned
    location whose region lies inside the array is a true occurrence: the
    extracted block has the pattern's shape behind the leading axes of
    extent 1, and every element of the region equals the pattern's element
    at the same place. *)
Theorem find_submatrix_sound_in_bounds (mode : eq_mode)
    (σ : gmap nat (list Z)) (big_mat small_mat : ndarray)
    (locs : list (list nat)) (nslices : list (list slice)) (loc : list nat) :
  find_submatrix mode σ big_mat small_mat = Ok (Found locs nslices) →
  loc ∈ locs →
  region_in_bounds big_mat (make_nslice loc (shape small_mat)) →
  occurs_at σ big_mat small_mat loc
  ∧ shape (getitem_slices big_mat (make_nslice loc (shape small_mat)))
      = replicate (ndim big_mat - 2) 1%nat ++ shape small_mat.
Proof.
  intros Hfind Hloc Hin.
  destruct (find_submatrix_found_inv _ _ _ _ _ _ Hfind)
    as (Hdim & Hbig & Hr & Hc).
  destruct (find_submatrix_filter _ _ _ _ _ _ Hfind) as [-> _].
  apply list_elem_of_filter in Hloc as [Hpass Hcand].
  apply list_elem_of_filter in Hcand as [_ Hidx].
  destruct (passes_occurs σ big_mat small_mat loc Hdim Hbig Hr Hc Hidx Hin)
    as [Hiff Hshape].
  split; [by apply Hiff | done].
Qed.

Lemma find_submatrix_sound_in_bounds_witness :
  occurs_at ref_store ref_big ref_small [0; 1; 1]%nat
  ∧ shape (getitem_slices ref_big
             (make_nslice [0; 1; 1]%nat (shape ref_small)))
      = replicate (ndim ref_big - 2) 1%nat ++ shape ref_small.
Proof.
  apply (find_submatrix_sound_in_bounds Legacy ref_store ref_big ref_small
           [[0; 1; 1]; [1; 1; 1]]%nat
           [[(0, 1); (1, 3); (1, 3)]; [(1, 2); (1, 3); (1, 3)]]%nat).
  - vm_compute. reflexivity.
  - apply list_elem_of_here.
  - unfold region_in_bounds. vm_compute. repeat constructor.
Defined.

(** X16. No occurrence is missed: whenever [find_submatrix] returns its
    pair, every coordinate of the array at which the pattern lies inside the
    bounds is in [location_list]. *)
Theorem find_submatrix_complete (mode : eq_mode) (σ : gmap nat (list Z))
    (big_mat small_mat : ndarray) (locs : list (list nat))
    (nslices : list (list slice)) (loc : list nat) :
  find_submatrix mode σ big_mat small_mat = Ok (Found locs nslices) →
  loc ∈ indices (shape big_mat) →
  occurs_at σ big_mat small_mat loc →
  loc ∈ locs.
Proof.
  intros Hfind Hidx Hocc.
  destruct (find_submatrix_found_inv _ _ _ _ _ _ Hfind)
    as (Hdim & Hbig & Hr & Hc).
  destruct (find_submatrix_filter _ _ _ _ _ _ Hfind) as [-> _].
  pose proof Hocc as [Hin Hel].
  destruct (passes_occurs σ big_mat small_mat loc Hdim Hbig Hr Hc Hidx Hin)
    as [Hiff _].
  apply list_elem_of_filter. split; [by apply Hiff |].
  apply list_elem_of_filter. split; [| done].
  assert (Hshift : corner_shift loc 0 0 = loc).
  { apply indices_Forall2, Forall2_length in Hidx.
    assert (Hlen : length loc = ndim big_mat)
      by (rewrite Hidx; unfold shape, ndim; apply length_fmap).
    destruct (list_snoc2 loc) as (pre & y & x & ->); [lia |].
    rewrite corner_shift_snoc2. by rewrite !Nat.add_0_r. }
  rewrite <- Hshift at 1. apply Hel.
  - destruct small_mat as [bs offs saxs]. unfold ndim in Hdim. simpl in Hdim.
    by destruct saxs as [| [r s0] [| [c s1] [| ? ?]]].
  - destruct small_mat as [bs offs saxs]. unfold ndim in Hdim. simpl in Hdim.
    by destruct saxs as [| [r s0] [| [c s1] [| ? ?]]].
Qed.

Lemma find_submatrix_complete_witness :
  [1; 1; 1]%nat ∈ [[0; 1; 1]; [1; 1; 1]]%nat.
Proof.
  apply (find_submatrix_complete Legacy ref_store ref_big ref_small
           [[0; 1; 1]; [1; 1; 1]]%nat
           [[(0, 1); (1, 3); (1, 3)]; [(1, 2); (1, 3); (1, 3)]]%nat).
  - vm_compute. reflexivity.
  - apply indices_Forall2. vm_compute. repeat constructor.
  - split.
    + unfold region_in_bounds. vm_compute. repeat constructor.
    + intros [| [| i]] [| [| j]] Hi Hj; try reflexivity;
        vm_compute in Hi, Hj; lia.
Defined.

(** ** Writing a block through a view *)



Lemma buf_set_length (buf : list Z) (p x : Z) :
  length (buf_set buf p x) = length buf.
Proof. unfold buf_set. destruct (p <? 0); [done | apply length_insert]. Qed.

Lemma foldl_buf_set_length (writes : list (Z * Z)) :
  ∀ buf, length (foldl (λ b w, buf_set b w.1 w.2) buf writes) = length buf.
Proof.
  induction writes as [| w writes IH]; intros buf; simpl; [done |].
  by rewrite IH, buf_set_length.
Qed.











(** The three rotated views of an n x n pattern, element by element. *)
Lemma rotated_views (σ : gmap nat (list Z)) (small_mat : ndarray) (n : nat) :
  shape small_mat = [n; n] →
  (∃ cw, rotate_sqcw small_mat = Ok cw ∧ shape cw = [n; n]
         ∧ ∀ i j, (i < n)%nat → (j < n)%nat →
             read σ cw [i; j] = read σ small_mat (rotated_source n 1 i j))
  ∧ (shape (rotate_180 small_mat) = [n; n]
     ∧ ∀ i j, (i < n)%nat → (j < n)%nat →
         read σ (rotate_180 small_mat) [i; j]
         = read σ small_mat (rotated_source n 2 i j))
  ∧ (∃ cc, rotate_sqcc small_mat = Ok cc ∧ shape cc = [n; n]
         ∧ ∀ i j, (i < n)%nat → (j < n)%nat →
             read σ cc [i; j] = read σ small_mat (rotated_source n 3 i j)).
Proof.
  intros Hsh. destruct small_mat as [bs offs saxs]. unfold shape in Hsh.
  simpl in Hsh.
  destruct saxs as [| [n0 s0] [| [n1 s1] [| ? ?]]]; simplify_eq/=.
  split; [| split].
  - destruct (decide (n = 0%nat)) as [-> | Hn].
    + eexists. split; [reflexivity |]. split; [done |]. intros; lia.
    + destruct (rotate_sqcw_read σ bs offs n n s0 s1 0 0)
        as (cw & Hcw & Hshape & _); [lia | lia |].
      exists cw. split; [done |]. split; [done |]. intros i j Hi Hj.
      destruct (rotate_sqcw_read σ bs offs n n s0 s1 (n - 1 - j) i)
        as (cw' & Hcw' & _ & Hread); [lia | lia |].
      rewrite Hcw in Hcw'. injection Hcw' as <-.
      replace (n - 1 - (n - 1 - j))%nat with j in Hread by lia.
      exact Hread.
  - destruct (decide (n = 0%nat)) as [-> | Hn].
    + split; [done |]. intros; lia.
    + destruct (rotate_180_read σ bs offs n n s0 s1 0 0)
        as [Hshape _]; [lia | lia |].
      split; [done |]. intros i j Hi Hj.
      destruct (rotate_180_read σ bs offs n n s0 s1 (n - 1 - i) (n - 1 - j))
        as [_ Hread]; [lia | lia |].
      replace (n - 1 - (n - 1 - i))%nat with i in Hread by lia.
      replace (n - 1 - (n - 1 - j))%nat with j in Hread by lia.
      exact Hread.
  - destruct (decide (n = 0%nat)) as [-> | Hn].
    + eexists. split; [reflexivity |]. split; [done |]. intros; lia.
    + destruct (rotate_sqcc_read σ bs offs n n s0 s1 0 0)
        as (cc & Hcc & Hshape & _); [lia | lia |].
      exists cc. split; [done |]. split; [done |]. intros i j Hi Hj.
      destruct (rotate_sqcc_read σ bs offs n n s0 s1 j (n - 1 - i))
        as (cc' & Hcc' & _ & Hread); [lia | lia |].
      rewrite Hcc in Hcc'. injection Hcc' as <-.
      replace (n - 1 - (n - 1 - i))%nat with i in Hread by lia.
      exact Hread.
Qed.

(** ** What a successful [rot_submatrix] leaves in the array *)

(** With a placement found and a turn count that is not a multiple of 4,
    the call is one assignment of a rotated view of the pattern. *)
Lemma rot_submatrix_write_back (mode : eq_mode) (σ : gmap nat (list Z))
    (big_mat small_mat : ndarray) (increment : Z) (loc : list nat)
    (locs : list (list nat)) (nslices : list (list slice)) (n : nat) :
  find_submatrix mode σ big_mat small_mat = Ok (Found (loc :: locs) nslices) →
  shape small_mat = [n; n] →
  increment mod 4 ≠ 0 →
  ∃ rot, shape rot = [n; n]
    ∧ rot_submatrix mode σ big_mat small_mat increment
        = write_back σ big_mat (make_nslice loc [n; n]) rot
    ∧ ∀ i j, (i < n)%nat → (j < n)%nat →
        read σ rot [i; j]
        = read σ small_mat (rotated_source n (increment mod 4) i j).
Proof.
  intros Hfind Hsh Hinc.
  destruct (find_submatrix_found_inv _ _ _ _ _ _ Hfind)
    as (Hdim & Hbig & Hr & Hc).
  destruct (find_submatrix_filter _ _ _ _ _ _ Hfind) as [Hlocs Hsls].
  rewrite fmap_cons in Hsls. subst nslices. rewrite Hsh in Hfind.
  destruct (rotated_views σ small_mat n Hsh)
    as ((cw & Hcw & Hcwsh & Hcwrd) & (H180sh & H180rd)
        & (cc & Hcc & Hccsh & Hccrd)).
  assert (Hcases : increment mod 4 = 1 ∨ increment mod 4 = 2
                   ∨ increment mod 4 = 3).
  { pose proof (Z.mod_pos_bound increment 4). lia. }
  unfold rot_submatrix.
  rewrite decide_False by (by intros ?).
  rewrite decide_False by (rewrite Hsh; by intros ?).
  rewrite Hfind.
  rewrite (decide_False (P := Z.abs increment mod 4 = 0))
    by (by rewrite abs_mod4_zero).
  destruct Hcases as [Hk | [Hk | Hk]]; rewrite Hk.
  - exists cw. split; [done |].
    rewrite decide_False by (revert Hk; Z.div_mod_to_equations; lia).
    rewrite decide_True by done. by rewrite Hcw.
  - exists (rotate_180 small_mat). split; [done |].
    rewrite decide_True by (revert Hk; Z.div_mod_to_equations; lia).
    done.
  - exists cc. split; [done |].
    rewrite decide_False by (revert Hk; Z.div_mod_to_equations; lia).
    rewrite decide_False by done. rewrite decide_True by done.
    by rewrite Hcc.
Qed.

Lemma found_head_index (mode : eq_mode) (σ : gmap nat (list Z))
    (big_mat small_mat : ndarray) (loc : list nat)
    (locs : list (list nat)) (nslices : list (list slice)) :
  find_submatrix mode σ big_mat small_mat = Ok (Found (loc :: locs) nslices) →
  loc ∈ indices (shape big_mat).
Proof.
  intros Hfind.
  destruct (find_submatrix_filter _ _ _ _ _ _ Hfind) as [Hlocs _].
  assert (Hmem : loc ∈ loc :: locs) by apply list_elem_of_here.
  rewrite Hlocs in Hmem.
  apply list_elem_of_filter in Hmem as [_ Hmem].
  by apply list_elem_of_filter in Hmem as [_ Hmem].
Qed.







(** ** A first placement cut at the array's edge *)

Lemma slice_axes_last2_clip (dy dx y x r c : nat) (sy sx : Z) :
  (y < dy)%nat → (x < dx)%nat → (0 < r)%nat → (0 < c)%nat →
  slice_axes [(dy, sy); (dx, sx)] [(y, (y + r)%nat); (x, (x + c)%nat)]
    = (Z.of_nat y * sy + (Z.of_nat x * sx + 0),
       [(((y + r) `min` dy - y)%nat, sy); (((x + c) `min` dx - x)%nat, sx)]).
Proof.
  intros Hy Hx Hr Hc. simpl. unfold slice_axis. simpl.
  replace (y `min` dy)%nat with y by lia.
  replace (x `min` dx)%nat with x by lia.
  rewrite !decide_False by lia. done.
Qed.

Lemma write_back_clipped (σ : gmap nat (list Z)) (big_mat rot : ndarray)
    (loc : list nat) (n : nat) :
  (2 ≤ ndim big_mat)%nat → loc ∈ indices (shape big_mat) →
  shape rot = [n; n] → (0 < n)%nat →
  ¬ region_in_bounds big_mat (make_nslice loc [n; n]) →
  write_back σ big_mat (make_nslice loc [n; n]) rot = (Raise ValueError, σ).
Proof.
  intros Hbig Hloc Hrot Hn Hout.
  destruct rot as [bs offs raxs]. unfold shape in Hrot. simpl in Hrot.
  destruct raxs as [| [r' t0] [| [c' t1] [| ? ?]]]; simplify_eq/=.
  destruct big_mat as [b off axs]. unfold ndim in Hbig. simpl in Hbig.
  destruct (list_snoc2 axs Hbig) as (apre & [dy sy] & [dx sx] & ->).
  unfold region_in_bounds in Hout. unfold shape in Hloc, Hout.
  cbn [nd_axes] in Hloc, Hout. rewrite fmap_app in Hloc, Hout.
  change ((λ l : list axis, l.*1) [(dy, sy); (dx, sx)]) with [dy; dx]
    in Hloc, Hout.
  apply indices_Forall2 in Hloc.
  apply Forall2_app_inv_r in Hloc as (pre & l2 & Hpre & H2 & ->).
  apply Forall2_cons_inv_r in H2 as (y & l2' & Hy & H2 & ->).
  apply Forall2_cons_inv_r in H2 as (x & l2'' & Hx & H2 & ->).
  apply Forall2_nil_inv_r in H2 as ->.
  rewrite make_nslice_snoc2 in *.
  assert (Hclip : ¬ ((y + n ≤ dy)%nat ∧ (x + n ≤ dx)%nat)).
  { intros [Hyn Hxn]. apply Hout. apply Forall2_app.
    - clear -Hpre. revert pre Hpre.
      induction (apre.*1) as [| d ds IH]; intros pre Hpre.
      + apply Forall2_nil_inv_r in Hpre as ->. constructor.
      + apply Forall2_cons_inv_r in Hpre as (l & pre' & Hl & Hpre & ->).
        rewrite fmap_cons. constructor; [simpl; lia | by apply IH].
    - by repeat constructor. }
  unfold write_back, setitem_slices, getitem_slices. cbv zeta.
  cbn [nd_axes nd_base nd_offset].
  unfold axis, slice in *.
  rewrite (slice_axes_leading _ _ apre pre Hpre).
  rewrite (slice_axes_last2_clip dy dx y x n n sy sx) by done.
  cbn [fst snd]. unfold shape. cbn [nd_axes].
  rewrite fmap_app.
  assert (Hu1 : ((λ ax : nat * Z, (1%nat, ax.2)) <$> apre).*1
                = replicate (length apre) 1%nat).
  { clear. induction apre as [| ax apre IH]; [done |].
    rewrite !fmap_cons. simpl. by rewrite IH. }
  unfold axis in *. rewrite Hu1. unfold broadcast_to.
  cbn [nd_axes fmap list_fmap fst].
  rewrite reverse_app, reverse_replicate.
  cbn [reverse rev_append app stretch_rev].
  rewrite stretch_rev_nil. simpl. simpl in Hy, Hx.
  repeat case_decide; try done; exfalso; lia.
Qed.

(** X18. When the first placement found is one whose region is cut at the
    array's edge, [rot_submatrix] raises [ValueError] for every turn count
    that is not a multiple of 4: the rotated n x n block cannot be assigned
    to the smaller region.  The array is left as it was. *)
Theorem rot_submatrix_clipped_raises (mode : eq_mode) (σ : gmap nat (list Z))
    (big_mat small_mat : ndarray) (increment : Z) (loc : list nat)
    (locs : list (list nat)) (nslices : list (list slice)) (n : nat) :
  find_submatrix mode σ big_mat small_mat = Ok (Found (loc :: locs) nslices) →
  shape small_mat = [n; n] →
  ¬ region_in_bounds big_mat (make_nslice loc (shape small_mat)) →
  increment mod 4 ≠ 0 →
  rot_submatrix mode σ big_mat small_mat increment = (Raise ValueError, σ).
Proof.
  intros Hfind Hsh Hout Hinc.
  destruct (find_submatrix_found_inv _ _ _ _ _ _ Hfind)
    as (Hdim & Hbig & Hr & Hc).
  pose proof (found_head_index _ _ _ _ _ _ _ Hfind) as Hloc.
  rewrite Hsh in Hr, Hout. change ([n; n] !!! 0%nat) with n in Hr.
  destruct (rot_submatrix_write_back _ _ _ _ _ _ _ _ _ Hfind Hsh Hinc)
    as (rot & Hrotsh & -> & _).
  by apply write_back_clipped.
Qed.

Lemma rot_submatrix_clipped_raises_witness :
  rot_submatrix Legacy edge_store edge_big edge_small 2
    = (Raise ValueError, edge_store).
Proof.
  apply (rot_submatrix_clipped_raises Legacy edge_store edge_big edge_small 2
           [1; 0]%nat [] [[(1, 3); (0, 2)]%nat] 2).
  - vm_compute. reflexivity.
  - reflexivity.
  - unfold region_in_bounds. vm_compute. intros H.
    apply Forall2_cons_1 in H as [H _]. simpl in H. lia.
  - vm_compute. discriminate.
Defined.

(** ** The two comparison behaviours agree when neither raises *)

Lemma scan_candidates_strict_legacy (σ : gmap nat (list Z))
    (big_mat small_mat : ndarray) (size : list nat)
    (candidates : list (list nat)) :
  ∀ acc r,
    scan_candidates Strict σ big_mat small_mat size candidates acc = Ok r →
    scan_candidates Legacy σ big_mat small_mat size candidates acc = Ok r.
Proof.
  induction candidates as [| c rest IH]; intros acc r; simpl; [done |].
  unfold np_equal.
  destruct (broadcast_arrays _ _) as [[a' b'] |]; simpl; [| done].
  destruct (forallb id _); apply IH.
Qed.

(** X19. For an array and a pattern of one integer dtype, the result of
    [find_submatrix] does not depend on what [==] does with shapes it cannot
    broadcast: whatever the function returns when [==] raises on them, it
    returns when [==] answers [False] for them.  On such arrays the two
    treatments of a shape mismatch can differ by a [ValueError] only. *)
Theorem find_submatrix_strict_legacy (σ : gmap nat (list Z))
    (big_mat small_mat : ndarray) (r : found) :
  find_submatrix Strict σ big_mat small_mat = Ok r →
  find_submatrix Legacy σ big_mat small_mat = Ok r.
Proof.
  unfold find_submatrix. case_decide; [done |].
  destruct (getitem_int small_mat 0) as [row |]; simpl; [| done].
  destruct (getitem_int row 0) as [corner |]; simpl; [| done].
  destruct (scan_candidates Strict _ _ _ _ _ _) as [rs |] eqn:Hscan; simpl;
    [| done].
  by rewrite (scan_candidates_strict_legacy _ _ _ _ _ _ _ Hscan).
Qed.

Lemma find_submatrix_strict_legacy_witness :
  find_submatrix Legacy col_store col_big col_small
    = Ok (Found [[0; 1]; [1; 1]]%nat [[(0, 2); (1, 3)]; [(1, 3); (1, 3)]]%nat).
Proof.
  apply (find_submatrix_strict_legacy col_store col_big col_small).
  vm_compute. reflexivity.
Defined.
